(** * Cue2ID3: CUE sheet to ID3 chapter frames

    A shallow embedding of [Cue2ID3.py]: the CUE parser [parse_cue_file],
    the chapter planner and frame builder inside [embed_chapters], the
    backup / save / restore sequence of [embed_chapters] and the per-file
    driver [process_files], followed by the properties of the
    specification that concern them. *)

From Stdlib Require Import ZArith Ascii String List Bool Lia.
From Stdlib Require Import DecimalString DecimalNat.
From Stdlib Require Import SpecFloat.
From stdpp Require Import base option list gmap strings fin_maps.

Local Open Scope string_scope.
Local Open Scope Z_scope.

(** ** Python values the program manipulates *)

Module Python.

(** Exceptions the modelled code can raise.  Every one of them is a
    subclass of [Exception], which is what the handlers of the program
    catch. *)
Inductive exn : Type :=
  | IndexError
  | ValueError
  | OverflowError
  | UnicodeDecodeError
  | FileNotFoundError
  | OSError
  | ID3NoHeaderError
  | MutagenError.

(** A computation either returns or raises. *)
Inductive result (A : Type) : Type :=
  | Ok (a : A)
  | Raise (e : exn).
Arguments Ok {A} a.
Arguments Raise {A} e.

#[global] Instance result_ret : MRet result := fun A a => Ok a.
#[global] Instance result_bind : MBind result := fun A B k r =>
  match r with
  | Ok a => k a
  | Raise e => Raise e
  end.

Definition raises {A} (r : result A) : bool :=
  match r with Ok _ => false | Raise _ => true end.

(** *** Floats

    Python's [float] is IEEE 754 binary64.  The operations are those of
    the Standard Library's executable specification, with rounding to
    nearest, ties to even. *)

Definition prec : Z := 53.
Definition emax : Z := 1024.

Definition float := spec_float.

Definition is_finite (x : float) : bool :=
  match x with
  | S754_zero _ | S754_finite _ _ _ => true
  | _ => false
  end.

(** [float(n)] for an [int]: correctly rounded, [OverflowError] ("int too
    large to convert to float") when the result is out of range.  This is
    also the implicit conversion of an [int] operand of [+], [*] and [/]
    whose other operand is a [float]. *)
Definition float_of_int (n : Z) : result float :=
  let x := binary_normalize prec emax n 0 false in
  if is_finite x then Ok x else Raise OverflowError.

Definition fadd (x y : float) : float := SFadd prec emax x y.
Definition fmul (x y : float) : float := SFmul prec emax x y.
Definition fdiv (x y : float) : float := SFdiv prec emax x y.

(** [int(x)] for a [float]: truncation toward zero; [OverflowError] on an
    infinity and [ValueError] on a NaN. *)
Definition int_of_float (x : float) : result Z :=
  match x with
  | S754_zero _ => Ok 0
  | S754_finite s m e =>
      let mag := if 0 <=? e then Z.pos m * 2 ^ e else Z.pos m / 2 ^ (- e) in
      Ok (if s then - mag else mag)
  | S754_infinity _ => Raise OverflowError
  | S754_nan => Raise ValueError
  end.

(** The literals [75.0] and [1000] (the latter converted to a float by
    [*]); both are exactly representable. *)
Definition f75 : float := Eval vm_compute in binary_normalize prec emax 75 0 false.
Definition f1000 : float := Eval vm_compute in binary_normalize prec emax 1000 0 false.


(** *** Strings

    A [str] read from a cp1252 file is modelled by the bytes it was
    decoded from: cp1252 is a single-byte encoding, so characters and
    bytes correspond one to one. *)

Local Open Scope nat_scope.

(** [str.isspace] on one character.  Among the characters cp1252 can
    produce these are tab to carriage return, the four separators
    0x1c-0x1f, the space and the no-break space 0xa0. *)
Definition is_space (c : ascii) : bool :=
  let n := nat_of_ascii c in
  ((9 <=? n) && (n <=? 13)) || ((28 <=? n) && (n <=? 32)) || (n =? 160).

Fixpoint lstrip (s : string) : string :=
  match s with
  | String c r => if is_space c then lstrip r else s
  | EmptyString => EmptyString
  end.

Fixpoint rstrip (s : string) : string :=
  match s with
  | String c r =>
      match rstrip r with
      | EmptyString => if is_space c then EmptyString else String c EmptyString
      | r' => String c r'
      end
  | EmptyString => EmptyString
  end.

(** [s.strip()] *)
Definition strip (s : string) : string := rstrip (lstrip s).

Definition upper_char (c : ascii) : ascii :=
  let n := nat_of_ascii c in
  if (97 <=? n) && (n <=? 122) then ascii_of_nat (n - 32) else c.

(** [s.upper()], on the ASCII letters.  The program only uses the result
    to look for the ASCII words TRACK, TITLE and INDEX 01; no other
    cp1252 character has one of their letters in its upper-case form, so
    leaving the other characters alone does not change any of those
    tests. *)
Fixpoint upper (s : string) : string :=
  match s with
  | String c r => String (upper_char c) (upper r)
  | EmptyString => EmptyString
  end.

(** [s.startswith(p)] *)
Definition startswith (p s : string) : bool := String.prefix p s.

(** [p in s] for strings *)
Fixpoint contains (p s : string) : bool :=
  String.prefix p s ||
  match s with
  | String _ r => contains p r
  | EmptyString => false
  end.

(** [c in s] for a single character [c] *)
Fixpoint has_char (c : ascii) (s : string) : bool :=
  match s with
  | String d r => Ascii.eqb c d || has_char c r
  | EmptyString => false
  end.

(** [s.split(sep)] for a one-character separator: never empty. *)
Fixpoint split_on (sep : ascii) (s : string) : list string :=
  match s with
  | String c r =>
      if Ascii.eqb c sep then EmptyString :: split_on sep r
      else match split_on sep r with
           | h :: t => String c h :: t
           | [] => [String c EmptyString]
           end
  | EmptyString => [EmptyString]
  end.

(** [s.split()]: the maximal runs of non-whitespace characters. *)
Fixpoint split_ws (s : string) : list string :=
  match s with
  | String c r =>
      if is_space c then split_ws r
      else match r with
           | String c' _ =>
               if is_space c' then String c EmptyString :: split_ws r
               else match split_ws r with
                    | h :: t => String c h :: t
                    | [] => [String c EmptyString]
                    end
           | EmptyString => [String c EmptyString]
           end
  | EmptyString => []
  end.

(** [l[i]] for [i >= 0] *)
Definition item {A} (l : list A) (i : nat) : result A :=
  match l !! i with
  | Some a => Ok a
  | None => Raise IndexError
  end.

(** [l[-1]] *)
Definition last_item {A} (l : list A) : result A :=
  match l with
  | [] => Raise IndexError
  | _ => item l (length l - 1)
  end.

Definition digit_of (c : ascii) : option Z :=
  let n := nat_of_ascii c in
  if (48 <=? n) && (n <=? 57) then Some (Z.of_nat (n - 48)) else None.

(** The digits of a decimal literal, most significant first: single
    underscores are allowed between digits.  [count] is the number of
    digits seen, [sep] says that a digit must come next. *)
Fixpoint int_digits (acc : Z) (count : nat) (sep : bool) (s : string)
  : option (Z * nat) :=
  match s with
  | String c r =>
      if Ascii.eqb c "_" then
        if sep then None else int_digits acc count true r
      else match digit_of c with
           | Some d => int_digits (10 * acc + d)%Z (S count) false r
           | None => None
           end
  | EmptyString => if sep then None else Some (acc, count)
  end.

(** CPython's default limit on the digits of an integer literal given to
    [int] ([sys.get_int_max_str_digits()]). *)
Definition int_max_str_digits : nat := 4300.

(** The whitespace [int] skips around a literal: that of [str.isspace]
    without the four separators 0x1c-0x1f, which make [int] raise. *)
Definition is_int_space (c : ascii) : bool :=
  let n := nat_of_ascii c in
  ((9 <=? n) && (n <=? 13)) || (n =? 32) || (n =? 160).

Fixpoint int_lstrip (s : string) : string :=
  match s with
  | String c r => if is_int_space c then int_lstrip r else s
  | EmptyString => EmptyString
  end.

Fixpoint int_rstrip (s : string) : string :=
  match s with
  | String c r =>
      match int_rstrip r with
      | EmptyString => if is_int_space c then EmptyString else String c EmptyString
      | r' => String c r'
      end
  | EmptyString => EmptyString
  end.

(** [int(s)] for a [str], base ten: surrounding whitespace, an optional
    sign, digits; [ValueError] otherwise. *)
Definition int (s : string) : result Z :=
  let t := int_rstrip (int_lstrip s) in
  let '(neg, body) :=
    match t with
    | String "+" r => (false, r)
    | String "-" r => (true, r)
    | _ => (false, t)
    end in
  match int_digits 0%Z 0 true body with
  | Some (v, count) =>
      if count <=? int_max_str_digits then Ok (if neg then (- v)%Z else v)
      else Raise ValueError
  | None => Raise ValueError
  end.

(** Decoding a file opened with [encoding="cp1252"]: five byte values
    have no character. *)
Definition cp1252_defined (c : ascii) : bool :=
  let n := nat_of_ascii c in
  negb ((n =? 129) || (n =? 141) || (n =? 143) || (n =? 144) || (n =? 157)).

Fixpoint all_chars (p : ascii -> bool) (s : string) : bool :=
  match s with
  | String c r => p c && all_chars p r
  | EmptyString => true
  end.

Definition decode_cp1252 (data : string) : result string :=
  if all_chars cp1252_defined data then Ok data else Raise UnicodeDecodeError.

Definition LF : ascii := ascii_of_nat 10.
Definition CR : ascii := ascii_of_nat 13.

(** The lines a text-mode file yields when iterated: universal newlines,
    so each of CR LF, CR and LF ends a line and reads as LF; the line
    keeps its terminator. *)
Fixpoint readlines (s : string) : list string :=
  match s with
  | String c r =>
      if Ascii.eqb c LF then String LF EmptyString :: readlines r
      else if Ascii.eqb c CR then
        match r with
        | String c' r' =>
            if Ascii.eqb c' LF then String LF EmptyString :: readlines r'
            else String LF EmptyString :: readlines r
        | EmptyString => [String LF EmptyString]
        end
      else match r with
           | EmptyString => [String c EmptyString]
           | _ => match readlines r with
                  | h :: t => String c h :: t
                  | [] => [String c EmptyString]
                  end
           end
  | EmptyString => []
  end.

Local Close Scope nat_scope.

End Python.

Import Python.

(** ** The CUE parser ([parse_cue_file]) *)

(** A chapter seed: the [(title, start_time_ms)] tuples of the source. *)
Abbreviation seed := (string * Z)%type.

(** The double quote character. *)
Definition dquote : ascii := ascii_of_nat 34.

(** [int((m * 60 + s + f / 75.0) * 1000)]: [m * 60 + s] is integer
    arithmetic, [f / 75.0] a float division, the sum and the product by
    [1000] are float operations, and [int] truncates. *)
Definition timecode_ms (m s f : Z) : result Z :=
  let whole := m * 60 + s in
  ff ← float_of_int f;
  let frac := fdiv ff f75 in
  fw ← float_of_int whole;
  int_of_float (fmul (fadd fw frac) f1000).

(** The body of the [try] block of an INDEX 01 line, up to the value
    assigned to [current_time]. *)
Definition index_time (line : string) : result Z :=
  let parts := split_ws line in
  time_str ← last_item parts;
  match split_on ":" time_str with
  | [m; s; f] =>
      m ← int m;
      s ← int s;
      f ← int f;
      timecode_ms m s f
  | _ => Raise ValueError
  end.

(** The local variables of [parse_cue_file], and the lines for which the
    handler printed "Error parsing time from line:". *)
Record pstate : Type := PState {
  chapters : list seed;
  current_title : option string;
  current_time : option Z;
  time_errors : list (string * exn)
}.

Definition initial : pstate := PState [] None None [].

(** [if current_title is not None and current_time is not None:
       chapters.append((current_title, current_time))] *)
Definition flush (st : pstate) : list seed :=
  match current_title st, current_time st with
  | Some title, Some time => chapters st ++ [(title, time)]
  | _, _ => chapters st
  end.

(** The three kinds of line the loop tells apart, in the order of its
    [if] / [elif] chain. *)
Definition is_track (line : string) : bool := startswith "TRACK" (upper line).
Definition is_title (line : string) : bool := startswith "TITLE" (upper line).
Definition is_index (line : string) : bool := contains "INDEX 01" (upper line).

(** One iteration of [for line in f]. *)
Definition loop_body (st : pstate) (raw : string) : result pstate :=
  let line := strip raw in
  if is_track line then
    Ok (PState (flush st) None None (time_errors st))
  else if is_title line then
    if has_char dquote line then
      title ← item (split_on dquote line) 1;
      Ok (PState (chapters st) (Some title) (current_time st) (time_errors st))
    else Ok st
  else if is_index line then
    match index_time line with
    | Ok time =>
        Ok (PState (chapters st) (current_title st) (Some time) (time_errors st))
    | Raise e =>
        Ok (PState (chapters st) (current_title st) (current_time st)
              (time_errors st ++ [(line, e)]))
    end
  else Ok st.

Fixpoint loop (st : pstate) (lines : list string) : result pstate :=
  match lines with
  | [] => Ok st
  | raw :: rest => st' ← loop_body st raw; loop st' rest
  end.

(** [parse_cue_file] on the lines of the file: the seeds it returns and
    the time errors it printed. *)
Definition parse_cue_lines (lines : list string)
  : result (list seed * list (string * exn)) :=
  st ← loop initial lines;
  Ok (flush st, time_errors st).

(** [parse_cue_file] on the bytes of the file. *)
Definition parse_cue_text (data : string)
  : result (list seed * list (string * exn)) :=
  text ← decode_cp1252 data;
  parse_cue_lines (readlines text).

(** ** Frames and the tag container (the part of mutagen used) *)

(** A title sub-frame, [TIT2(encoding=..., text=...)]. *)
Record TIT2 : Type := MkTIT2 { encoding : Z; text : list string }.

(** The frames of a container: the two kinds the program builds, and any
    other frame, of which only the key matters here. *)
Inductive frame : Type :=
  | CTOC (element_id : string) (flags : Z) (child_element_ids : list string)
         (sub_frames : list TIT2)
  | CHAP (element_id : string) (start_time end_time start_offset end_offset : Z)
         (sub_frames : list TIT2)
  | OtherFrame (hash_key : string) (payload : string).

(** [frame.HashKey], the key under which the container stores a frame. *)
Definition HashKey (fr : frame) : string :=
  match fr with
  | CTOC element_id _ _ _ => "CTOC:" ++ element_id
  | CHAP element_id _ _ _ _ _ => "CHAP:" ++ element_id
  | OtherFrame hash_key _ => hash_key
  end.

(** [CTOCFlags] *)
Definition TOP_LEVEL : Z := 2.
Definition ORDERED : Z := 1.

(** An [ID3] object is a dictionary from hash keys to frames. *)
Abbreviation ID3 := (gmap string frame).

(** [tags.add(frame)] *)
Definition add (fr : frame) (tags : ID3) : ID3 := <[HashKey fr := fr]> tags.

(** [for key in list(tags.keys()):
       if key.startswith("CHAP") or key.startswith("CTOC"): del tags[key]] *)
Definition is_chapter_key (key : string) : bool :=
  startswith "CHAP" key || startswith "CTOC" key.

Definition remove_chapter_frames (tags : ID3) : ID3 :=
  foldl (fun t key => if is_chapter_key key then delete key t else t)
        tags (map_to_list tags).*1.

(** The format specification [02d] on a natural number. *)
Definition pad2 (n : nat) : string :=
  let d := NilEmpty.string_of_uint (Nat.to_uint n) in
  if (String.length d <? 2)%nat then "0" ++ d else d.

(** [f"chp{idx+1:02d}"] *)
Definition element_id (idx : nat) : string := "chp" ++ pad2 (idx + 1).
Arguments pad2 : simpl never.
Arguments element_id : simpl never.

(** The first loop of [embed_chapters]. *)
Definition child_ids (chapters : list seed) : list string :=
  imap (fun idx _ => element_id idx) chapters.

Definition ctoc (chapters : list seed) : frame :=
  CTOC "toc" (Z.lor TOP_LEVEL ORDERED) (child_ids chapters)
       [MkTIT2 3 ["I'm a TOC"]].

(** The body of the second loop up to the frame it builds. *)
Definition chap (chapters : list seed) (total_duration_ms : Z)
    (idx : nat) (title : string) (start_time : Z) : result frame :=
  end_time ←
    (if Z.of_nat idx <? Z.of_nat (length chapters) - 1
     then nxt ← item chapters (idx + 1); Ok (snd nxt)
     else Ok total_duration_ms);
  Ok (CHAP (element_id idx) start_time end_time 0 0 [MkTIT2 3 [title]]).

(** The second loop, from position [idx] on: [todo] is the rest of
    [enumerate(chapters)]. *)
Fixpoint add_chapters (chapters : list seed) (total_duration_ms : Z)
    (idx : nat) (todo : list seed) (tags : ID3) : result ID3 :=
  match todo with
  | [] => Ok tags
  | (title, start_time) :: rest =>
      fr ← chap chapters total_duration_ms idx title start_time;
      add_chapters chapters total_duration_ms (S idx) rest (add fr tags)
  end.

(** The tag container [embed_chapters] saves, from the one it loaded. *)
Definition new_tags (chapters : list seed) (total_duration_ms : Z)
    (tags : ID3) : result ID3 :=
  let tags := remove_chapter_frames tags in
  let tags := add (ctoc chapters) tags in
  add_chapters chapters total_duration_ms 0 chapters tags.

(** ** Files, the console and the calls that can fail *)

Inductive message : Type :=
  | ErrorParsingTime (line : string) (e : exn)
  | FoundChapters (n : nat)
  | BackupCreated (backup_file : string)
  | ErrorCreatingBackup (e : exn)
  | ChaptersEmbedded
  | ErrorSavingTags (e : exn)
  | RestoredFromBackup
  | ErrorRestoringBackup (e : exn)
  | BackupDeleted (backup_file : string)
  | CueDeleted (cue_path : string)
  | ErrorDuringProcessing (e : exn).

(** The file system maps a path to the bytes of the file; the console
    is what has been printed, oldest first.  The prints that only echo
    frames are left out. *)
Record world : Type := World {
  files : gmap string string;
  console : list message
}.

Definition print (msg : message) (w : world) : world :=
  World (files w) (console w ++ [msg]).

(** [os.path.exists(path)] *)
Definition exists_ (path : string) (w : world) : bool :=
  bool_decide (is_Some (files w !! path)).

(** The effect of an [os.remove(path)] that succeeds. *)
Definition remove (path : string) (w : world) : world :=
  World (delete path (files w)) (console w).

(** [os.remove(path)]: the file is removed, or the call raises and the
    file stays. *)
Definition remove_file (o : option exn) (path : string) (w : world)
  : result unit * world :=
  match o with
  | None => (Ok tt, remove path w)
  | Some e => (Raise e, w)
  end.

(** [if os.path.exists(path): os.remove(path); print(...)] *)
Definition remove_if_exists (o : option exn) (deleted : string -> message)
    (path : string) (w : world) : result unit * world :=
  if exists_ path w
  then match remove_file o path w with
       | (Ok _, w) => (Ok tt, print (deleted path) w)
       | (Raise e, w) => (Raise e, w)
       end
  else (Ok tt, w).

(** What mutagen does with the bytes of an MP3 file: [ID3(path)], which
    raises [ID3NoHeaderError] when the file has no tag header,
    [MP3(path).info.length] in seconds, and the bytes [tags.save] leaves
    in a file. *)
Record mutagen : Type := Mutagen {
  read_ID3 : string -> result ID3;
  info_length : string -> result float;
  render : ID3 -> string -> string
}.

(** The outcome of a copy [dst.write(src.read())] between two files
    opened together: it succeeds, or raises, either before the
    destination was opened for writing or after it was truncated and
    some bytes were written. *)
Inductive copy_outcome : Type :=
  | Copied
  | CopyFails (e : exn) (written : option nat).

(** The outcome of [tags.save]: it succeeds, or raises, leaving the file
    untouched or with other contents. *)
Inductive save_outcome : Type :=
  | Saved
  | SaveFails (e : exn) (remains : option string).

(** The run under consideration: what happens at the three writes
    [embed_chapters] guards with a handler of their own, the backup copy,
    the save and the copy back, and at the two [os.remove] calls of
    [process_files], which stand inside its [try] block: each removes the
    file, or raises the given exception and leaves it. *)
Record faults : Type := Faults {
  backup_io : copy_outcome;
  save_io : save_outcome;
  restore_io : copy_outcome;
  remove_backup_io : option exn;
  remove_cue_io : option exn
}.

(** [with open(src, "rb") as a, open(dst, "wb") as b: b.write(a.read())] *)
Definition copy_file (o : copy_outcome) (src dst : string) (w : world)
  : result unit * world :=
  match files w !! src with
  | None => (Raise FileNotFoundError, w)
  | Some data =>
      match o with
      | Copied => (Ok tt, World (<[dst := data]> (files w)) (console w))
      | CopyFails e None => (Raise e, w)
      | CopyFails e (Some n) =>
          (Raise e, World (<[dst := String.substring 0 n data]> (files w)) (console w))
      end
  end.

(** [tags.save(path, v2_version=4)] *)
Definition save (lib : mutagen) (o : save_outcome) (tags : ID3)
    (path : string) (w : world) : result unit * world :=
  match o with
  | Saved =>
      (Ok tt, World (<[path := render lib tags (default "" (files w !! path))]> (files w))
                    (console w))
  | SaveFails e None => (Raise e, w)
  | SaveFails e (Some remains) =>
      (Raise e, World (<[path := remains]> (files w)) (console w))
  end.

(** A mutagen call that reads the file at [path]: mutagen reports a
    file it cannot open as a [MutagenError]. *)
Definition on_file {A} (f : string -> result A) (path : string) (w : world)
  : result A :=
  match files w !! path with
  | Some data => f data
  | None => Raise MutagenError
  end.

(** ** [embed_chapters] *)

(** The function up to the comment "Create backup before saving": the
    tag container that will be saved. *)
Definition prepare_tags (lib : mutagen) (mp3_path : string)
    (chapters : list seed) (w : world) : result ID3 :=
  tags ← match on_file (read_ID3 lib) mp3_path w with
         | Raise ID3NoHeaderError => Ok ∅
         | r => r
         end;
  let tags := remove_chapter_frames tags in
  seconds ← on_file (info_length lib) mp3_path w;
  total_duration_ms ← int_of_float (fmul seconds f1000);
  let tags := add (ctoc chapters) tags in
  add_chapters chapters total_duration_ms 0 chapters tags.

(** "Create backup before saving" *)
Definition create_backup (flt : faults) (mp3_path backup_file : string)
    (w : world) : world :=
  if exists_ backup_file w then w
  else match copy_file (backup_io flt) mp3_path backup_file w with
       | (Ok _, w) => print (BackupCreated backup_file) w
       | (Raise e, w) => print (ErrorCreatingBackup e) w
       end.

(** "Try to save the modified tags" *)
Definition save_or_restore (lib : mutagen) (flt : faults) (tags : ID3)
    (mp3_path backup_file : string) (w : world) : result unit * world :=
  match save lib (save_io flt) tags mp3_path w with
  | (Ok _, w) => (Ok tt, print ChaptersEmbedded w)
  | (Raise save_err, w) =>
      let w := print (ErrorSavingTags save_err) w in
      let w :=
        match copy_file (restore_io flt) backup_file mp3_path w with
        | (Ok _, w) => print RestoredFromBackup w
        | (Raise resex, w) => print (ErrorRestoringBackup resex) w
        end in
      (Raise save_err, w)
  end.

Definition embed_chapters (lib : mutagen) (flt : faults) (mp3_path : string)
    (chapters : list seed) (w : world) : result string * world :=
  match prepare_tags lib mp3_path chapters w with
  | Raise e => (Raise e, w)
  | Ok tags =>
      let backup_file := mp3_path ++ ".bak" in
      let w := create_backup flt mp3_path backup_file w in
      match save_or_restore lib flt tags mp3_path backup_file w with
      | (Ok _, w) => (Ok backup_file, w)
      | (Raise save_err, w) => (Raise save_err, w)
      end
  end.

(** ** [process_files]

    The module defines [process_files] twice; the second definition, the
    one that deletes the backup and the CUE file, is the one in force
    when the program runs. *)

(** [parse_cue_file(cue_path)].  The file is decoded as a whole: what
    the loop may already have printed about earlier lines when the
    decoder meets an undefined byte further down the file is left out,
    and so are the errors of [open] other than a missing file. *)
Definition parse_cue_file (cue_path : string) (w : world)
  : result (list seed) * world :=
  match files w !! cue_path with
  | None => (Raise FileNotFoundError, w)
  | Some data =>
      match parse_cue_text data with
      | Ok (chapters, errors) =>
          (Ok chapters,
           World (files w)
                 (console w ++ map (fun le => ErrorParsingTime (fst le) (snd le)) errors))
      | Raise e => (Raise e, w)
      end
  end.

Definition process_files (lib : mutagen) (flt : faults)
    (cue_path mp3_path : string) (w : world) : bool * world :=
  match parse_cue_file cue_path w with
  | (Raise e, w) => (false, print (ErrorDuringProcessing e) w)
  | (Ok [], w) => (false, print (ErrorDuringProcessing ValueError) w)
  | (Ok chapters, w) =>
      let w := print (FoundChapters (length chapters)) w in
      match embed_chapters lib flt mp3_path chapters w with
      | (Raise e, w) => (false, print (ErrorDuringProcessing e) w)
      | (Ok backup_file, w) =>
          match remove_if_exists (remove_backup_io flt) BackupDeleted backup_file w with
          | (Raise e, w) => (false, print (ErrorDuringProcessing e) w)
          | (Ok _, w) =>
              match remove_if_exists (remove_cue_io flt) CueDeleted cue_path w with
              | (Raise e, w) => (false, print (ErrorDuringProcessing e) w)
              | (Ok _, w) => (true, w)
              end
          end
      end
  end.

(** ** Reading the parser line by line

    What one line of a block contributes: the title a quoted TITLE line
    assigns, the time a well-formed INDEX 01 line assigns.  A TRACK line
    closes the block, so it contributes neither. *)

Definition line_title (raw : string) : option string :=
  let line := strip raw in
  if is_track line then None
  else if is_title line && has_char dquote line
       then split_on dquote line !! 1%nat
       else None.

Definition line_time (raw : string) : option Z :=
  let line := strip raw in
  if is_track line || is_title line then None
  else if is_index line
       then match index_time line with Ok time => Some time | Raise _ => None end
       else None.

(** An INDEX 01 line whose timecode is malformed: the loop reaches the
    [try] block and the block raises. *)
Definition malformed_index (raw : string) : bool :=
  let line := strip raw in
  negb (is_track line) && negb (is_title line) && is_index line
  && raises (index_time line).

Definition track_line (raw : string) : bool := is_track (strip raw).

(** An assignment overrides the previous value, no assignment keeps it. *)
Definition pick {A} (old new : option A) : option A :=
  match new with Some _ => new | None => old end.

Definition body_title (old : option string) (body : list string) : option string :=
  foldl (fun acc raw => pick acc (line_title raw)) old body.

Definition body_time (old : option Z) (body : list string) : option Z :=
  foldl (fun acc raw => pick acc (line_time raw)) old body.

(** The seed a run of lines without TRACK line leaves to be flushed. *)
Definition block_seed (body : list string) : option seed :=
  match body_title None body, body_time None body with
  | Some title, Some time => Some (title, time)
  | _, _ => None
  end.

(** A TRACK block: its TRACK line and the lines up to the next one. *)
Abbreviation block := (string * list string)%type.

Definition block_lines (b : block) : list string := fst b :: snd b.

Definition no_track (body : list string) : bool :=
  forallb (fun raw => negb (track_line raw)) body.

Definition is_block (b : block) : bool :=
  track_line (fst b) && no_track (snd b).

(** A block with a quoted TITLE line and a well-formed INDEX 01 line. *)
Definition complete_block (b : block) : bool :=
  is_block b
  && existsb (fun raw => bool_decide (is_Some (line_title raw))) (snd b)
  && existsb (fun raw => bool_decide (is_Some (line_time raw))) (snd b).

Definition text_of (pre : list string) (blocks : list block) : list string :=
  pre ++ concat (map block_lines blocks).

(** Every text is some leading lines followed by TRACK blocks. *)
Fixpoint split_blocks (lines : list string) : list string * list block :=
  match lines with
  | [] => ([], [])
  | raw :: rest =>
      let '(pre, blocks) := split_blocks rest in
      if track_line raw then ([], (raw, pre) :: blocks) else (raw :: pre, blocks)
  end.

Definition leading (lines : list string) : list string := fst (split_blocks lines).
Definition blocks_of (lines : list string) : list block := snd (split_blocks lines).

(** The conversion as the specification words it,
    [round((minutes*60 + seconds + frames/75) * 1000)], on exact
    rationals: [round_half_even n d] is the integer nearest to [n / d],
    the even one on a tie, as Python's [round]. *)
Definition round_half_even (n d : Z) : Z :=
  let q := n / d in
  let r := n mod d in
  if 2 * r <? d then q
  else if d <? 2 * r then q + 1
  else if Z.even q then q else q + 1.

Definition spec_round_ms (m s f : Z) : Z :=
  round_half_even (((m * 60 + s) * 75 + f) * 1000) 75.

(** Sample lines of a CUE sheet. *)
Definition quoted (s : string) : string := String dquote s ++ String dquote "".
Definition TRACK_line (n : string) : string := "  TRACK " ++ n ++ " AUDIO".
Definition TITLE_line (title : string) : string := "    TITLE " ++ quoted title.
Definition INDEX_line (timecode : string) : string := "    INDEX 01 " ++ timecode.

(** The sheet of the end-to-end scenario of the specification. *)
Definition two_tracks : list string :=
  [ "FILE " ++ quoted "album.mp3" ++ " MP3";
    TRACK_line "01"; TITLE_line "Intro"; INDEX_line "00:00:00";
    TRACK_line "02"; TITLE_line "Main"; INDEX_line "03:00:00" ].

Definition stray_seed_text : list string :=
  [ TITLE_line "Album"; INDEX_line "00:00:00";
    TRACK_line "01"; TITLE_line "One"; INDEX_line "00:02:00" ].

Definition no_track_text : list string :=
  [ TITLE_line "Album"; INDEX_line "00:01:00" ].

(** The same lines as the bytes of a file. *)
Definition no_track_file : string :=
  TITLE_line "Album" ++ String LF "" ++ INDEX_line "00:01:00" ++ String LF "".




(** The CHAP frame of the chapter at position [idx], as the second loop
    of [embed_chapters] builds it when it does not raise: it ends where
    the next chapter starts, or at the total duration. *)
Definition end_time_of (chapters : list seed) (total_duration_ms : Z)
    (idx : nat) : Z :=
  match chapters !! (idx + 1)%nat with
  | Some (_, start_time) => start_time
  | None => total_duration_ms
  end.

Definition chapter_frame (chapters : list seed) (total_duration_ms : Z)
    (idx : nat) (sd : seed) : frame :=
  CHAP (element_id idx) (snd sd) (end_time_of chapters total_duration_ms idx)
       0 0 [MkTIT2 3 [fst sd]].

Definition chapter_frames (chapters : list seed) (total_duration_ms : Z)
  : list frame :=
  imap (chapter_frame chapters total_duration_ms) chapters.

(** Start and end of a CHAP frame. *)
Definition frame_start (fr : frame) : option Z :=
  match fr with CHAP _ start_time _ _ _ _ => Some start_time | _ => None end.
Definition frame_end (fr : frame) : option Z :=
  match fr with CHAP _ _ end_time _ _ _ => Some end_time | _ => None end.

(** The element identifier of a chapter or table-of-contents frame. *)
Definition frame_id (fr : frame) : option string :=
  match fr with
  | CHAP element_id _ _ _ _ _ | CTOC element_id _ _ _ => Some element_id
  | OtherFrame _ _ => None
  end.

(** The number a decimal numeral denotes. *)
Definition decimal_value (s : string) : option nat :=
  Nat.of_uint <$> NilEmpty.uint_of_string s.

(** The decimal numeral of a number, without leading zeros. *)
Definition decimal (n : nat) : string :=
  NilEmpty.string_of_uint (Nat.to_uint n).

(** The key of the CHAP frame of the chapter at position [idx]. *)
Definition chap_key (idx : nat) : string := "CHAP:" ++ element_id idx.

(** The entries of a container whose key starts with a given word. *)
Definition keyed (word : string) (tags : ID3) : ID3 :=
  filter (fun kv => startswith word (fst kv) = true) tags.

(** Sample chapters and a container that already holds frames of an
    earlier run (three chapters and a table of contents) next to a
    title frame. *)
Definition sample_chapters : list seed := [("Intro", 0); ("Main", 180000)].

Definition processed_tags : ID3 :=
  {[ "TIT2" := OtherFrame "TIT2" "Album";
     "CTOC:toc" := CTOC "toc" 3 ["chp01"; "chp02"; "chp03"] [];
     "CHAP:chp01" := CHAP "chp01" 0 10 0 0 [];
     "CHAP:chp02" := CHAP "chp02" 10 20 0 0 [];
     "CHAP:chp03" := CHAP "chp03" 20 30 0 0 [] ]}.

(** A sample run: an MP3 file without tag header, five minutes long, the
    sheet of the end-to-end scenario next to it, and a library whose
    saved files are the old bytes after a marker. *)
Definition sample_lib : mutagen :=
  Mutagen (fun _ => Raise ID3NoHeaderError)
          (fun _ => float_of_int 300)
          (fun _ old => "ID3" ++ old).

Definition sample_cue : string :=
  "TRACK 01 AUDIO" ++ String LF "" ++ TITLE_line "Intro" ++ String LF ""
  ++ INDEX_line "00:00:00" ++ String CR (String LF "")
  ++ "TRACK 02 AUDIO" ++ String LF "" ++ TITLE_line "Main" ++ String LF ""
  ++ INDEX_line "03:00:00".

Definition sample_world : world :=
  World {[ "a.mp3" := "AUDIO"; "a.mp3.cue" := sample_cue ]} [].

(** No write fails. *)
Definition no_fault : faults := Faults Copied Saved Copied None None.

(** The save fails after it has written part of the file, and so does
    the copy back from the backup, before it could open the file. *)
Definition save_and_restore_fail : faults :=
  Faults Copied (SaveFails OSError (Some "ID3AU")) (CopyFails OSError None)
         None None.

(** The save fails after it has written part of the file. *)
Definition save_fails : faults :=
  Faults Copied (SaveFails OSError (Some "ID3AU")) Copied None None.

(** The backup cannot be created; the save succeeds. *)
Definition backup_fails : faults :=
  Faults (CopyFails OSError None) Saved Copied None None.

(** The save fails after it has written part of the file, and the copy
    back fails after it has truncated the file and written two bytes. *)
Definition restore_truncates : faults :=
  Faults Copied (SaveFails OSError (Some "ID3AU")) (CopyFails OSError (Some 2%nat))
         None None.

(** Everything succeeds up to the removal of the CUE file, which raises. *)
Definition cue_removal_fails : faults :=
  Faults Copied Saved Copied None (Some OSError).

(** Everything succeeds up to the removal of the backup, which raises. *)
Definition backup_removal_fails : faults :=
  Faults Copied Saved Copied (Some OSError) None.

Definition is_saved (o : save_outcome) : bool :=
  match o with Saved => true | SaveFails _ _ => false end.

(** The removal does not raise. *)
Definition removes (o : option exn) : bool :=
  match o with None => true | Some _ => false end.

(** What the MP3 file holds after a failed save and the copy back from
    a backup holding [data]: the backup's bytes when the copy succeeds;
    what the save left when the copy fails before it opens the file;
    the bytes written when it fails after truncating the file. *)
Definition after_restore (o : copy_outcome) (remains : option string)
    (data : string) : string :=
  match o with
  | Copied => data
  | CopyFails _ None => default data remains
  | CopyFails _ (Some n) => String.substring 0 n data
  end.

(** The container the sample run saves. *)
Definition sample_tags : ID3 :=
  {[ "CTOC:toc" := CTOC "toc" 3 ["chp01"; "chp02"] [MkTIT2 3 ["I'm a TOC"]];
     "CHAP:chp01" := CHAP "chp01" 0 180000 0 0 [MkTIT2 3 ["Intro"]];
     "CHAP:chp02" := CHAP "chp02" 180000 300000 0 0 [MkTIT2 3 ["Main"]] ]}.

(** ** The rest of the program: the first [process_files] and
    [process_folder] *)

(** The first definition of [process_files] in the module, which the
    second one replaces: it embeds and deletes nothing. *)
Definition process_files_first (lib : mutagen) (flt : faults)
    (cue_path mp3_path : string) (w : world) : bool * world :=
  match parse_cue_file cue_path w with
  | (Raise e, w) => (false, print (ErrorDuringProcessing e) w)
  | (Ok [], w) => (false, print (ErrorDuringProcessing ValueError) w)
  | (Ok chapters, w) =>
      let w := print (FoundChapters (length chapters)) w in
      match embed_chapters lib flt mp3_path chapters w with
      | (Raise e, w) => (false, print (ErrorDuringProcessing e) w)
      | (Ok _, w) => (true, w)
      end
  end.

Definition lower_char (c : ascii) : ascii :=
  let n := nat_of_ascii c in
  if ((65 <=? n) && (n <=? 90))%nat then ascii_of_nat (n + 32) else c.

(** [s.lower()], on the ASCII letters: the program only compares the
    result with the ASCII suffix ".mp3". *)
Fixpoint lower (s : string) : string :=
  match s with
  | String c r => String (lower_char c) (lower r)
  | EmptyString => EmptyString
  end.

(** [s.endswith(suffix)] *)
Fixpoint endswith (suffix s : string) : bool :=
  String.eqb s suffix ||
  match s with
  | String _ r => endswith suffix r
  | EmptyString => false
  end.

(** [os.path.join(a, p)] for two components, with the POSIX
    separator. *)
Definition path_join (a p : string) : string :=
  if startswith "/" p then p
  else if String.eqb a "" || endswith "/" a then a ++ p
  else a ++ "/" ++ p.

(** What [process_folder] prints itself, in order; the messages of the
    calls of [process_files] go to the console of the world. *)
Inductive folder_message : Type :=
  | Processing (mp3_full cue_full : string)
  | NoCueFile (mp3_full : string)
  | NoSuitablePairs.

(** The loop of [process_folder] over the names [os.listdir] returned:
    the flag [processed_any], the messages and the world.  Each file is
    processed under the outcomes [flts] gives for its path. *)
Fixpoint folder_loop (lib : mutagen) (flts : string -> faults)
    (folder_path : string) (names : list string)
    (processed_any : bool) (log : list folder_message) (w : world)
  : bool * list folder_message * world :=
  match names with
  | [] => (processed_any, log, w)
  | filename :: rest =>
      if endswith ".mp3" (lower filename) then
        let mp3_full := path_join folder_path filename in
        let cue_full := mp3_full ++ ".cue" in
        if exists_ cue_full w then
          let '(_, w) := process_files lib (flts mp3_full) cue_full mp3_full w in
          folder_loop lib flts folder_path rest true
                      (log ++ [Processing mp3_full cue_full])%list w
        else
          folder_loop lib flts folder_path rest processed_any
                      (log ++ [NoCueFile mp3_full])%list w
      else folder_loop lib flts folder_path rest processed_any log w
  end.

(** [process_folder(folder_path)]; [listing] is what
    [os.listdir(folder_path)] does, a list of names or an exception. *)
Definition process_folder (lib : mutagen) (flts : string -> faults)
    (listing : result (list string)) (folder_path : string) (w : world)
  : result (list folder_message) * world :=
  match listing with
  | Raise e => (Raise e, w)
  | Ok names =>
      let '(processed_any, log, w) :=
        folder_loop lib flts folder_path names false [] w in
      (Ok (if processed_any then log else (log ++ [NoSuitablePairs])%list), w)
  end.

(** Whether the backup path holds a file once [embed_chapters] has
    returned: it did before the run, or the backup copy got as far as
    opening it. *)
Definition backup_left (flt : faults) (mp3_path : string) (w : world) : bool :=
  exists_ (mp3_path ++ ".bak") w
  || match backup_io flt with
     | Copied | CopyFails _ (Some _) => true
     | CopyFails _ None => false
     end.

(** The exact value of a timecode in milliseconds, rounded down. *)
Definition exact_floor_ms (m s f : Z) : Z :=
  (((m * 60 + s) * 75 + f) * 1000) / 75.

(** A sample folder: one pair that can be processed, one MP3 file
    without CUE sheet and a file that is not an MP3 file. *)
Definition sample_folder : world :=
  World {[ "music/a.mp3" := "AUDIO"; "music/a.mp3.cue" := sample_cue;
           "music/b.MP3" := "OTHER"; "music/notes.txt" := "text" ]} [].

Definition sample_names : list string := [ "a.mp3"; "notes.txt"; "b.MP3"; "a.mp3.cue" ].

(** A world in which a backup of an earlier run is still there. *)
Definition stale_world : world :=
  World {[ "a.mp3" := "AUDIO"; "a.mp3.bak" := "OLDER"; "a.mp3.cue" := sample_cue ]} [].

(** The backup copy fails after two bytes, the save fails too, the copy
    back works. *)
Definition partial_backup : faults :=
  Faults (CopyFails OSError (Some 2%nat)) (SaveFails OSError (Some "ID3AU")) Copied
         None None.

(** A library that cannot read the tags of the file. *)
Definition broken_lib : mutagen :=
  Mutagen (fun _ => Raise MutagenError)
          (fun _ => float_of_int 300)
          (fun _ old => "ID3" ++ old).

(** A CUE sheet whose only block has no INDEX 01 line, and bytes that
    cp1252 cannot decode. *)
Definition no_index_cue : string :=
  "TRACK 01 AUDIO" ++ String LF "" ++ TITLE_line "Intro" ++ String LF "".

Definition no_index_world : world :=
  World {[ "a.mp3" := "AUDIO"; "a.mp3.cue" := no_index_cue ]} [].

(** The names [process_folder] takes for MP3 files, and the MP3 path a
    message of [process_folder] is about. *)
Definition is_mp3_name (filename : string) : bool := endswith ".mp3" (lower filename).

Definition message_mp3 (msg : folder_message) : option string :=
  match msg with
  | Processing mp3_full _ | NoCueFile mp3_full => Some mp3_full
  | NoSuitablePairs => None
  end.

Definition is_processing (msg : folder_message) : bool :=
  match msg with Processing _ _ => true | _ => false end.

(** Every save fails. *)
Definition all_fail : string -> faults := fun _ => save_fails.

(** A string of whitespace characters. *)
Definition blank (s : string) : bool := all_chars is_space s.

(** A line with blanks around it. *)
Definition padded (raw raw' : string) : Prop :=
  exists before after,
    blank before = true /\ blank after = true /\
    raw' = (before ++ raw ++ after)%string.

(** A block with its title and its time given twice, and the sheet of
    the end-to-end scenario with other indentation and line ends. *)
Definition twice_block : list string :=
  [ TRACK_line "01"; TITLE_line "Draft"; INDEX_line "00:01:00";
    TITLE_line "Final"; INDEX_line "00:02:00"; "    TITLE unquoted";
    INDEX_line "xx" ].

Definition two_tracks_padded : list string :=
  map (fun raw => String (ascii_of_nat 9) "" ++ raw ++ " " ++ String CR (String LF ""))
      two_tracks.

(** Seeds in ascending order of start. *)
Definition ascending (chapters : list seed) : Prop :=
  forall i a b, chapters !! i = Some a -> chapters !! S i = Some b -> snd a <= snd b.

(** The whole seconds and the frames of the timecodes below a number of
    seconds. *)
Definition timecodes_below (seconds : nat) : list (Z * Z) :=
  s ← seqZ 0 (Z.of_nat seconds); f ← seqZ 0 75; [(s, f)].

(** The conversion of [seconds:frames] is the exact value rounded down,
    or one less. *)
Definition near_exact (sf : Z * Z) : bool :=
  match timecode_ms 0 (fst sf) (snd sf) with
  | Ok t => (exact_floor_ms 0 (fst sf) (snd sf) - 1 <=? t)
            && (t <=? exact_floor_ms 0 (fst sf) (snd sf))
  | Raise _ => false
  end.

Definition exact_at_frame_0 (s : Z) : bool :=
  match timecode_ms 0 s 0 with
  | Ok t => t =? s * 1000
  | Raise _ => false
  end.

(** Seeds out of order, and a file shorter than the last start. *)
Definition three_chapters : list seed := [("a", 0); ("b", 60000); ("c", 90000)].

(** A timecode as CUE sheets write it, [mm:ss:ff] with each field
    zero-padded to two digits, and strings without whitespace. *)
Definition timecode_text (m s f : nat) : string :=
  pad2 m ++ ":" ++ pad2 s ++ ":" ++ pad2 f.

Definition is_digit (c : ascii) : bool := bool_decide (is_Some (digit_of c)).

Definition numeral (s : string) : bool := all_chars is_digit s.

Definition solid (s : string) : bool := all_chars (fun c => negb (is_space c)) s.

(** The bytes of a text file: each line followed by a line
    terminator.  A line itself holds no carriage return or line feed. *)
Fixpoint unlines (terminator : string) (lines : list string) : string :=
  match lines with
  | [] => ""
  | line :: rest => line ++ terminator ++ unlines terminator rest
  end.

Definition one_line (s : string) : bool :=
  all_chars (fun c => negb (Ascii.eqb c LF) && negb (Ascii.eqb c CR)) s.

Definition CRLF : string := String CR (String LF "").

Definition is_terminator (t : string) : Prop :=
  t = String LF "" \/ t = CRLF \/ t = String CR "".
(** ** Properties of the parser *)

Section ParserFacts.

Implicit Types (st : pstate) (raw : string) (body : list string).

Lemma split_on_nonempty c s : (1 <= length (split_on c s))%nat.
Proof.
  destruct s as [|d r]; simpl; [lia|].
  destruct (Ascii.eqb d c); simpl; [lia|].
  destruct (split_on c r); simpl; lia.
Qed.

Lemma split_on_length c s :
  has_char c s = true -> (2 <= length (split_on c s))%nat.
Proof.
  induction s as [|d r IH]; simpl; [discriminate|].
  rewrite Ascii.eqb_sym.
  destruct (Ascii.eqb d c) eqn:E; simpl.
  - intros _. pose proof (split_on_nonempty c r). lia.
  - intros H. specialize (IH H).
    destruct (split_on c r) as [|h t]; simpl in *; lia.
Qed.

Lemma quoted_title_item line :
  has_char dquote line = true ->
  exists title, split_on dquote line !! 1%nat = Some title.
Proof.
  intros H. apply split_on_length in H.
  destruct (split_on dquote line) as [|a [|b t]]; simpl in *; try lia.
  by exists b.
Qed.

Lemma loop_body_track st raw :
  track_line raw = true ->
  loop_body st raw = Ok (PState (flush st) None None (time_errors st)).
Proof. unfold track_line, loop_body. by intros ->. Qed.

Lemma loop_body_other st raw :
  track_line raw = false ->
  exists errs,
    loop_body st raw =
      Ok (PState (chapters st) (pick (current_title st) (line_title raw))
                 (pick (current_time st) (line_time raw)) errs).
Proof.
  unfold track_line, loop_body, line_title, line_time. intros ->. simpl.
  destruct st as [chs ti tm errs]; simpl.
  destruct (is_title (strip raw)); simpl.
  - destruct (has_char dquote (strip raw)) eqn:Hq; simpl; [|by eexists].
    apply split_on_length in Hq. unfold item.
    destruct (split_on dquote (strip raw)) as [|a [|b t]]; simpl in *; try lia.
    by eexists.
  - destruct (is_index (strip raw)); [|by eexists].
    destruct (index_time (strip raw)); simpl; by eexists.
Qed.


Lemma loop_app st l1 l2 :
  loop st (l1 ++ l2) = (st' ← loop st l1; loop st' l2).
Proof.
  revert st. induction l1 as [|raw l1 IH]; intros st; simpl; [done|].
  destruct (loop_body st raw); simpl; [apply IH|done].
Qed.

Lemma loop_body_lines st body :
  no_track body = true ->
  exists errs,
    loop st body =
      Ok (PState (chapters st) (body_title (current_title st) body)
                 (body_time (current_time st) body) errs).
Proof.
  revert st. induction body as [|raw body IH]; intros st Hn; simpl in *.
  - exists (time_errors st). by destruct st.
  - apply andb_prop in Hn as [Hraw Hn]. apply negb_true_iff in Hraw.
    destruct (loop_body_other st raw Hraw) as [errs ->]. simpl.
    destruct (IH (PState (chapters st) (pick (current_title st) (line_title raw))
                         (pick (current_time st) (line_time raw)) errs) Hn)
      as [errs' ->].
    by eexists.
Qed.

Lemma flush_block chs body errs :
  flush (PState chs (body_title None body) (body_time None body) errs)
  = (chs ++ option_list (block_seed body))%list.
Proof.
  unfold flush, block_seed; simpl.
  destruct (body_title None body), (body_time None body); simpl;
    by rewrite ?app_nil_r.
Qed.

Lemma loop_blocks st (blocks : list block) :
  forallb is_block blocks = true ->
  exists st',
    loop st (concat (map block_lines blocks)) = Ok st' /\
    flush st' = (flush st ++ omap (fun b => block_seed (snd b)) blocks)%list.
Proof.
  revert st. induction blocks as [|[hd body] rest IH]; intros st Hb; simpl in *.
  - exists st. by rewrite app_nil_r.
  - apply andb_prop in Hb as [Hb Hrest].
    apply andb_prop in Hb as [Hhd Hbody]; simpl in *.
    rewrite loop_body_track by done. simpl.
    rewrite loop_app.
    destruct (loop_body_lines (PState (flush st) None None (time_errors st)) body Hbody)
      as [errs ->]. simpl.
    destruct (IH (PState (flush st) (body_title None body)
                         (body_time None body) errs) Hrest)
      as (st' & -> & Hfl).
    exists st'. split; [done|].
    rewrite Hfl, flush_block, <- app_assoc. f_equal.
    by destruct (block_seed body).
Qed.

(** The parser on any text: the lines before the first TRACK line, then
    the TRACK blocks.  It returns what the leading lines leave to be
    flushed, then one seed for each block that has both a title and a
    time, in the order of the blocks. *)
Lemma parse_blocks (pre : list string) (blocks : list block) :
  no_track pre = true ->
  forallb is_block blocks = true ->
  exists errs,
    parse_cue_lines (text_of pre blocks) =
      Ok ((option_list (block_seed pre)
           ++ omap (fun b => block_seed (snd b)) blocks)%list, errs).
Proof.
  intros Hpre Hb. unfold parse_cue_lines, text_of.
  rewrite loop_app.
  destruct (loop_body_lines initial pre Hpre) as [errs ->]. simpl.
  destruct (loop_blocks (PState [] (body_title None pre) (body_time None pre) errs)
              blocks Hb) as (st' & -> & Hfl).
  simpl. rewrite Hfl, flush_block. simpl. by eexists.
Qed.



Lemma split_blocks_text (lines : list string) :
  text_of (leading lines) (blocks_of lines) = lines.
Proof.
  unfold leading, blocks_of, text_of.
  induction lines as [|raw rest IH]; simpl; [done|].
  destruct (split_blocks rest) as [pre blocks]; simpl in *.
  destruct (track_line raw); simpl; by rewrite IH.
Qed.

Lemma split_blocks_shape (lines : list string) :
  no_track (leading lines) = true /\ forallb is_block (blocks_of lines) = true.
Proof.
  unfold leading, blocks_of.
  induction lines as [|raw rest IH]; simpl; [done|].
  destruct (split_blocks rest) as [pre blocks]; simpl in *.
  destruct IH as [Hpre Hb].
  destruct (track_line raw) eqn:E; simpl.
  - split; [done|]. unfold is_block; simpl. rewrite E, Hpre. done.
  - rewrite E, Hpre. done.
Qed.

(** The parser on any text, through its decomposition. *)
Lemma parse_cue_lines_blocks (lines : list string) :
  exists errs,
    parse_cue_lines lines =
      Ok ((option_list (block_seed (leading lines))
           ++ omap (fun b => block_seed (snd b)) (blocks_of lines))%list, errs).
Proof.
  destruct (split_blocks_shape lines) as [Hpre Hb].
  destruct (parse_blocks _ _ Hpre Hb) as [errs H].
  rewrite split_blocks_text in H. by exists errs.
Qed.

Lemma fold_pick_keeps {A B} (f : B -> option A) (l : list B) (old : option A) :
  is_Some old -> is_Some (foldl (fun acc x => pick acc (f x)) old l).
Proof.
  revert old. induction l as [|x l IH]; intros old H; simpl; [done|].
  apply IH. destruct (f x); simpl; [by eexists|done].
Qed.

Lemma fold_pick_exists {A B} (f : B -> option A) (l : list B) (old : option A) :
  existsb (fun x => bool_decide (is_Some (f x))) l = true ->
  is_Some (foldl (fun acc x => pick acc (f x)) old l).
Proof.
  revert old. induction l as [|x l IH]; intros old H; simpl in *; [done|].
  apply orb_prop in H as [H|H].
  - apply fold_pick_keeps. apply bool_decide_eq_true in H.
    destruct H as [y ->]. by eexists.
  - by apply IH.
Qed.

Lemma fold_pick_none {A B} (f : B -> option A) (l : list B) (old : option A) :
  forallb (fun x => bool_decide (f x = None)) l = true ->
  foldl (fun acc x => pick acc (f x)) old l = old.
Proof.
  revert old. induction l as [|x l IH]; intros old H; simpl in *; [done|].
  apply andb_prop in H as [Hx H]. apply bool_decide_eq_true in Hx.
  rewrite Hx. simpl. by apply IH.
Qed.

Lemma complete_block_seed (b : block) :
  complete_block b = true -> exists sd, block_seed (snd b) = Some sd.
Proof.
  unfold complete_block, block_seed. intros H.
  apply andb_prop in H as [H Htime]. apply andb_prop in H as [_ Htitle].
  destruct (fold_pick_exists line_title (snd b) None Htitle) as [t Ht].
  destruct (fold_pick_exists line_time (snd b) None Htime) as [ms Hms].
  unfold body_title, body_time. rewrite Ht, Hms. by eexists.
Qed.

Lemma complete_blocks_seeds (blocks : list block) :
  forallb complete_block blocks = true ->
  Forall2 (fun b sd => block_seed (snd b) = Some sd) blocks
          (omap (fun b => block_seed (snd b)) blocks).
Proof.
  induction blocks as [|b blocks IH]; simpl; intros H; [constructor|].
  apply andb_prop in H as [Hb H].
  destruct (complete_block_seed b Hb) as [sd Hsd].
  rewrite Hsd. constructor; [done|by apply IH].
Qed.

Lemma malformed_index_skipped raw :
  malformed_index raw = true -> line_title raw = None /\ line_time raw = None.
Proof.
  unfold malformed_index, line_title, line_time. intros H.
  repeat (apply andb_prop in H as [H ?]).
  apply negb_true_iff in H. rewrite H. simpl.
  match goal with Ht : negb (is_title _) = true |- _ =>
    apply negb_true_iff in Ht; rewrite Ht end. simpl.
  split; [done|].
  match goal with Hi : is_index _ = true |- _ => rewrite Hi end.
  by destruct (index_time (strip raw)).
Qed.

End ParserFacts.

(** ** The parser: seeds and TRACK blocks *)

Example parse_two_tracks :
  parse_cue_lines two_tracks = Ok ([("Intro", 0); ("Main", 180000)], []).
Proof. vm_compute. reflexivity. Qed.

(** C4, as amended.  When the lines before the first TRACK line do not
    leave both a title and a time behind, and each of the N TRACK blocks
    of the text has a quoted TITLE line and a well-formed INDEX 01 line,
    the parser returns exactly N seeds, the i-th being the seed of the
    i-th block. *)
Theorem complete_blocks_give_seeds (lines : list string) :
  block_seed (leading lines) = None ->
  forallb complete_block (blocks_of lines) = true ->
  exists seeds errs,
    parse_cue_lines lines = Ok (seeds, errs) /\
    length seeds = length (blocks_of lines) /\
    Forall2 (fun b sd => block_seed (snd b) = Some sd) (blocks_of lines) seeds.
Proof.
  intros Hpre Hb.
  destruct (parse_cue_lines_blocks lines) as [errs H].
  rewrite Hpre in H. simpl in H.
  pose proof (complete_blocks_seeds _ Hb) as HF.
  eexists _, errs. split; [exact H|]. split; [|exact HF].
  symmetry. by eapply Forall2_length.
Qed.

Lemma complete_blocks_give_seeds_witness :
  exists seeds errs,
    parse_cue_lines two_tracks = Ok (seeds, errs) /\
    length seeds = length (blocks_of two_tracks) /\
    Forall2 (fun b sd => block_seed (snd b) = Some sd) (blocks_of two_tracks) seeds.
Proof.
  apply (complete_blocks_give_seeds two_tracks); vm_compute; reflexivity.
Defined.

(** C4 as stated fails: a TITLE line and an INDEX 01 line ahead of the
    first TRACK line give a seed of their own, so this text with one
    complete TRACK block yields two seeds. *)
Lemma one_block_two_seeds :
  forallb complete_block (blocks_of stray_seed_text) = true /\
  length (blocks_of stray_seed_text) = 1%nat /\
  parse_cue_lines stray_seed_text = Ok ([("Album", 0); ("One", 2000)], []) /\
  ~ (forall lines,
       forallb complete_block (blocks_of lines) = true ->
       exists seeds errs,
         parse_cue_lines lines = Ok (seeds, errs) /\
         length seeds = length (blocks_of lines)).
Proof.
  assert (Hp : parse_cue_lines stray_seed_text
               = Ok ([("Album", 0); ("One", 2000)], []))
    by (vm_compute; reflexivity).
  assert (Hc : forallb complete_block (blocks_of stray_seed_text) = true)
    by (vm_compute; reflexivity).
  split; [exact Hc|]. split; [vm_compute; reflexivity|]. split; [exact Hp|].
  intros H. destruct (H stray_seed_text Hc) as (seeds & errs & Heq & Hlen).
  rewrite Hp in Heq. injection Heq as <- <-. vm_compute in Hlen. discriminate.
Qed.

(** C10.  Seeds that belong to no TRACK block: whatever title and time
    the lines before the first TRACK line leave behind are flushed as a
    seed, ahead of the seeds of the blocks; in particular a text with a
    quoted TITLE line and an INDEX 01 line and no TRACK line at all
    yields one seed. *)
Theorem seed_without_track_block :
  (no_track no_track_text = true /\
   parse_cue_lines no_track_text = Ok ([("Album", 1000)], []) /\
   contains "TRACK" (upper no_track_file) = false /\
   parse_cue_text no_track_file = Ok ([("Album", 1000)], [])) /\
  (forall lines sd,
     block_seed (leading lines) = Some sd ->
     exists errs,
       parse_cue_lines lines =
         Ok (sd :: omap (fun b => block_seed (snd b)) (blocks_of lines), errs)).
Proof.
  split; [repeat split; vm_compute; reflexivity|].
  intros lines sd Hsd.
  destruct (parse_cue_lines_blocks lines) as [errs H].
  rewrite Hsd in H. by exists errs.
Qed.

Lemma seed_without_track_block_witness :
  exists errs,
    parse_cue_lines no_track_text =
      Ok (("Album", 1000) :: omap (fun b => block_seed (snd b)) (blocks_of no_track_text),
          errs).
Proof.
  apply (proj2 seed_without_track_block no_track_text ("Album", 1000)).
  vm_compute; reflexivity.
Defined.




(** ** Element identifiers *)

Section ElementIds.

Local Open Scope nat_scope.

Lemma string_of_uint_inj d d' :
  NilEmpty.string_of_uint d = NilEmpty.string_of_uint d' -> d = d'.
Proof.
  intros H. apply (f_equal NilEmpty.uint_of_string) in H.
  rewrite !NilEmpty.usu in H. by injection H.
Qed.

Lemma decimal_inj n n' :
  NilEmpty.string_of_uint (Nat.to_uint n) = NilEmpty.string_of_uint (Nat.to_uint n') ->
  n = n'.
Proof. intros H. by apply Unsigned.to_uint_inj, string_of_uint_inj. Qed.

Lemma decimal_leading_zero n n' :
  NilEmpty.string_of_uint (Nat.to_uint n)
    = String "0" (NilEmpty.string_of_uint (Nat.to_uint n')) ->
  n = n'.
Proof.
  intros H. apply (f_equal NilEmpty.uint_of_string) in H.
  simpl in H. rewrite !NilEmpty.usu in H. simpl in H.
  injection H as H. apply (f_equal Nat.of_uint) in H.
  rewrite Unsigned.of_to in H. rewrite H.
  change (Nat.of_uint (Decimal.D0 (Nat.to_uint n'))) with (Nat.of_uint (Nat.to_uint n')).
  apply Unsigned.of_to.
Qed.

Lemma pad2_inj n n' : pad2 n = pad2 n' -> n = n'.
Proof.
  unfold pad2.
  destruct (String.length (NilEmpty.string_of_uint (Nat.to_uint n)) <? 2) eqn:E;
  destruct (String.length (NilEmpty.string_of_uint (Nat.to_uint n')) <? 2) eqn:E';
    simpl; intros H.
  - injection H as H. by apply decimal_inj.
  - symmetry in H. apply decimal_leading_zero in H. subst n'.
    rewrite E in E'. discriminate.
  - apply decimal_leading_zero in H. subst n'.
    rewrite E in E'. discriminate.
  - by apply decimal_inj.
Qed.

Lemma append_cancel (p a b : string) : (p ++ a = p ++ b)%string -> a = b.
Proof.
  induction p as [|c p IH]; simpl; [done|].
  intros H. injection H as H. by apply IH.
Qed.

Lemma element_id_inj i j : element_id i = element_id j -> i = j.
Proof.
  unfold element_id. intros H. apply append_cancel, pad2_inj in H. lia.
Qed.

Lemma chap_key_inj i j : chap_key i = chap_key j -> i = j.
Proof.
  unfold chap_key. intros H. by apply append_cancel, element_id_inj in H.
Qed.

End ElementIds.

(** ** The tag container *)

Section Container.

Implicit Types (tags : ID3) (k : string) (fr : frame).

Lemma foldl_delete_lookup (ks : list string) tags k :
  foldl (fun t key => if is_chapter_key key then delete key t else t) tags ks !! k
  = if is_chapter_key k && bool_decide (k ∈ ks) then None else tags !! k.
Proof.
  revert tags. induction ks as [|a ks IH]; intros tags; simpl.
  - rewrite andb_false_r. done.
  - rewrite IH. destruct (decide (k = a)) as [->|Hne].
    + rewrite (bool_decide_eq_true_2 (a ∈ a :: ks)) by left.
      destruct (is_chapter_key a) eqn:Ea; simpl; [|done].
      rewrite lookup_delete_eq. by destruct (bool_decide (a ∈ ks)).
    + assert (bool_decide (k ∈ a :: ks) = bool_decide (k ∈ ks)) as ->.
      { apply bool_decide_ext. rewrite elem_of_cons.
        split; [by intros [?|?]|by right]. }
      destruct (is_chapter_key k && bool_decide (k ∈ ks)); [done|].
      destruct (is_chapter_key a); [by rewrite lookup_delete_ne|done].
Qed.

(** The deletion loop removes exactly the entries whose key starts with
    CHAP or CTOC. *)
Lemma remove_chapter_frames_lookup tags k :
  remove_chapter_frames tags !! k = if is_chapter_key k then None else tags !! k.
Proof.
  unfold remove_chapter_frames. rewrite foldl_delete_lookup.
  destruct (is_chapter_key k); simpl; [|done].
  case_bool_decide as Hin; [done|].
  destruct (tags !! k) as [fr|] eqn:E; [|done].
  exfalso. apply Hin. apply list_elem_of_fmap. exists (k, fr).
  split; [done|]. by apply elem_of_map_to_list.
Qed.

Lemma fold_add_other (frs : list frame) tags k :
  k ∉ HashKey <$> frs ->
  foldl (fun t fr => add fr t) tags frs !! k = tags !! k.
Proof.
  revert tags. induction frs as [|a frs IH]; intros tags Hk; simpl; [done|].
  rewrite fmap_cons, not_elem_of_cons in Hk. destruct Hk as [Hne Hk].
  rewrite IH by done. unfold add. by rewrite lookup_insert_ne.
Qed.

Lemma fold_add_in (frs : list frame) tags fr :
  NoDup (HashKey <$> frs) -> fr ∈ frs ->
  foldl (fun t fr => add fr t) tags frs !! HashKey fr = Some fr.
Proof.
  revert tags. induction frs as [|a frs IH]; intros tags Hnd Hin; simpl.
  - by apply elem_of_nil in Hin.
  - rewrite fmap_cons in Hnd. apply NoDup_cons in Hnd as [Ha Hnd].
    apply elem_of_cons in Hin as [->|Hin].
    + rewrite fold_add_other by done. unfold add. by rewrite lookup_insert_eq.
    + by apply IH.
Qed.

Lemma chap_chapter_frame (chapters : list seed) total idx title start_time :
  chapters !! idx = Some (title, start_time) ->
  chap chapters total idx title start_time
  = Ok (chapter_frame chapters total idx (title, start_time)).
Proof.
  intros Hidx. unfold chap, chapter_frame, end_time_of, item. simpl.
  apply lookup_lt_Some in Hidx.
  destruct (Z.of_nat idx <? Z.of_nat (length chapters) - 1) eqn:E.
  - apply Z.ltb_lt in E.
    destruct (lookup_lt_is_Some_2 chapters (idx + 1)) as [[t' s'] Hn]; [lia|].
    by rewrite Hn.
  - apply Z.ltb_ge in E.
    rewrite (lookup_ge_None_2 chapters (idx + 1)) by lia. done.
Qed.

(** The second loop adds the frames of [chapter_frames], in order. *)
Lemma add_chapters_frames (chapters : list seed) total tags :
  add_chapters chapters total 0 chapters tags
  = Ok (foldl (fun t fr => add fr t) tags (chapter_frames chapters total)).
Proof.
  unfold chapter_frames.
  assert (H : forall todo idx tags,
             (forall i sd, todo !! i = Some sd -> chapters !! (idx + i)%nat = Some sd) ->
             add_chapters chapters total idx todo tags
             = Ok (foldl (fun t fr => add fr t) tags
                         (imap (fun i => chapter_frame chapters total (idx + i)) todo))).
  { induction todo as [|[title start_time] rest IH]; intros idx tg Hsub; simpl; [done|].
    rewrite (chap_chapter_frame chapters total idx title start_time).
    2:{ specialize (Hsub 0%nat (title, start_time) eq_refl).
        by rewrite Nat.add_0_r in Hsub. }
    simpl. rewrite IH.
    2:{ intros i sd Hi. specialize (Hsub (S i) sd Hi).
        by replace (S idx + i)%nat with (idx + S i)%nat by lia. }
    rewrite Nat.add_0_r. do 2 f_equal.
    apply imap_ext. intros i sd _. simpl. f_equal. lia. }
  rewrite (H chapters 0%nat tags); [done|]. by intros i sd Hi.
Qed.

Lemma chapter_frames_keys (chapters : list seed) total :
  HashKey <$> chapter_frames chapters total = chap_key <$> seq 0 (length chapters).
Proof.
  unfold chapter_frames. rewrite fmap_imap. by rewrite <- imap_seq_0.
Qed.

#[global] Instance chap_key_Inj : Inj (=) (=) chap_key.
Proof. intros i j. apply chap_key_inj. Qed.

Lemma chapter_frames_NoDup (chapters : list seed) total :
  NoDup (HashKey <$> chapter_frames chapters total).
Proof.
  rewrite chapter_frames_keys. apply NoDup_fmap_2; [apply _|apply NoDup_seq].
Qed.

Lemma chap_key_chapter idx : is_chapter_key (chap_key idx) = true.
Proof. done. Qed.

(** The container [embed_chapters] saves, entry by entry. *)
Lemma new_tags_lookup (chapters : list seed) total tags :
  exists tags',
    new_tags chapters total tags = Ok tags' /\
    (forall i sd, chapters !! i = Some sd ->
       tags' !! chap_key i = Some (chapter_frame chapters total i sd)) /\
    tags' !! "CTOC:toc" = Some (ctoc chapters) /\
    (forall k, is_chapter_key k = false -> tags' !! k = tags !! k) /\
    (forall k, is_chapter_key k = true -> is_Some (tags' !! k) ->
       k = "CTOC:toc" \/ exists i, (i < length chapters)%nat /\ k = chap_key i).
Proof.
  unfold new_tags. rewrite add_chapters_frames. eexists. split; [done|].
  set (base := add (ctoc chapters) (remove_chapter_frames tags)).
  assert (Hother : forall k, k ∉ chap_key <$> seq 0 (length chapters) ->
            foldl (fun t fr => add fr t) base (chapter_frames chapters total) !! k
            = base !! k).
  { intros k Hk. apply fold_add_other. by rewrite chapter_frames_keys. }
  assert (Hkeys : forall k, k ∈ chap_key <$> seq 0 (length chapters) <->
                            exists i, (i < length chapters)%nat /\ k = chap_key i).
  { intros k. rewrite list_elem_of_fmap. split.
    - intros (i & -> & Hi). apply elem_of_seq in Hi. exists i. split; [lia|done].
    - intros (i & Hi & ->). exists i. split; [done|]. apply elem_of_seq. lia. }
  repeat split.
  - intros i sd Hi.
    change (chap_key i) with (HashKey (chapter_frame chapters total i sd)).
    apply fold_add_in; [apply chapter_frames_NoDup|].
    unfold chapter_frames. apply list_elem_of_lookup. exists i.
    by rewrite list_lookup_imap, Hi.
  - rewrite Hother.
    + unfold base, add. by rewrite lookup_insert_eq.
    + rewrite Hkeys. by intros (i & _ & Heq).
  - intros k Hk. rewrite Hother.
    + unfold base, add. rewrite lookup_insert_ne.
      * by rewrite remove_chapter_frames_lookup, Hk.
      * intros <-. discriminate.
    + rewrite Hkeys. intros (i & _ & ->). by rewrite chap_key_chapter in Hk.
  - intros k Hk Hsome.
    destruct (decide (k ∈ chap_key <$> seq 0 (length chapters))) as [Hin|Hout].
    + right. by apply Hkeys.
    + left. rewrite (Hother k Hout) in Hsome. unfold base, add in Hsome.
      destruct (decide (k = "CTOC:toc")) as [->|Hne]; [done|].
      rewrite lookup_insert_ne in Hsome by done.
      rewrite remove_chapter_frames_lookup, Hk in Hsome. by destruct Hsome.
Qed.

End Container.

(** ** The chapters and the table of contents in the container *)

Example new_tags_sample :
  new_tags sample_chapters 300000 processed_tags
  = Ok {[ "TIT2" := OtherFrame "TIT2" "Album";
          "CTOC:toc" := CTOC "toc" 3 ["chp01"; "chp02"]
                             [MkTIT2 3 ["I'm a TOC"]];
          "CHAP:chp01" := CHAP "chp01" 0 180000 0 0 [MkTIT2 3 ["Intro"]];
          "CHAP:chp02" := CHAP "chp02" 180000 300000 0 0 [MkTIT2 3 ["Main"]] ]}.
Proof. vm_compute. reflexivity. Qed.

Lemma keyed_lookup word (tags : ID3) k fr :
  keyed word tags !! k = Some fr <-> tags !! k = Some fr /\ startswith word k = true.
Proof. unfold keyed. by rewrite map_lookup_filter_Some. Qed.

Lemma keyed_size word (tags : ID3) (keys : list string) :
  NoDup keys ->
  (forall k, k ∈ keys <-> is_Some (tags !! k) /\ startswith word k = true) ->
  size (keyed word tags) = length keys.
Proof.
  intros Hnd Hkeys.
  rewrite <- size_dom, <- (size_list_to_set (C := gset string) keys Hnd).
  f_equal. apply set_eq. intros k.
  rewrite elem_of_dom, elem_of_list_to_set, Hkeys.
  split.
  - intros [fr Hfr]. apply keyed_lookup in Hfr as [Hfr Hw]. split; [by eexists|done].
  - intros [[fr Hfr] Hw]. exists fr. by apply keyed_lookup.
Qed.

(** C3.  In the container the function saves, the chapter frame of each
    seed starts at the seed's start, each chapter frame but the last
    ends where the next one starts, and the last one ends at the total
    duration.  This holds for every seed sequence and every total
    duration, in particular for ordered seeds and a total duration not
    below the last start. *)
Theorem chapters_contiguous (chapters : list seed) (total_duration_ms : Z)
    (tags0 : ID3) :
  exists tags,
    new_tags chapters total_duration_ms tags0 = Ok tags /\
    (forall i sd, chapters !! i = Some sd ->
       exists fr, tags !! chap_key i = Some fr /\ frame_start fr = Some (snd sd)) /\
    (forall i, (S i < length chapters)%nat ->
       exists fr fr' t,
         tags !! chap_key i = Some fr /\ tags !! chap_key (S i) = Some fr' /\
         frame_end fr = Some t /\ frame_start fr' = Some t) /\
    (forall i, S i = length chapters ->
       exists fr, tags !! chap_key i = Some fr /\
                  frame_end fr = Some total_duration_ms).
Proof.
  destruct (new_tags_lookup chapters total_duration_ms tags0)
    as (tags & Hnew & Hchap & _).
  exists tags. split; [done|]. repeat split.
  - intros i sd Hi. eexists. split; [by apply Hchap|done].
  - intros i Hi.
    destruct (lookup_lt_is_Some_2 chapters i) as [sd Hsd]; [lia|].
    destruct (lookup_lt_is_Some_2 chapters (S i)) as [sd' Hsd']; [lia|].
    exists (chapter_frame chapters total_duration_ms i sd),
           (chapter_frame chapters total_duration_ms (S i) sd'), (snd sd').
    split; [by apply Hchap|]. split; [by apply Hchap|]. split; [|done].
    unfold chapter_frame, frame_end, end_time_of.
    replace (i + 1)%nat with (S i) by lia. rewrite Hsd'. by destruct sd'.
  - intros i Hi.
    destruct (lookup_lt_is_Some_2 chapters i) as [sd Hsd]; [lia|].
    exists (chapter_frame chapters total_duration_ms i sd).
    split; [by apply Hchap|].
    unfold chapter_frame, frame_end, end_time_of.
    by rewrite (lookup_ge_None_2 chapters (i + 1)) by lia.
Qed.

Lemma chapters_contiguous_witness :
  exists tags,
    new_tags sample_chapters 300000 processed_tags = Ok tags /\
    (exists fr fr' t,
       tags !! chap_key 0 = Some fr /\ tags !! chap_key 1 = Some fr' /\
       frame_end fr = Some t /\ frame_start fr' = Some t) /\
    (exists fr, tags !! chap_key 1 = Some fr /\ frame_end fr = Some 300000).
Proof.
  destruct (chapters_contiguous sample_chapters 300000 processed_tags)
    as (tags & Hnew & _ & Hnext & Hlast).
  exists tags. split; [exact Hnew|]. split.
  - apply (Hnext 0%nat). simpl. lia.
  - apply (Hlast 1%nat). reflexivity.
Defined.

(** C5.  The deletion loop removes every entry whose key starts with
    CHAP or CTOC before anything is added, so the container that is
    saved holds exactly one table-of-contents entry and exactly as many
    chapter entries as there are chapters, all of them the new frames;
    the other entries are kept; and running the step again on the
    result, with any chapters, gives what running it on the original
    container gives. *)
Theorem reembedding_replaces (chapters : list seed) (total_duration_ms : Z)
    (tags0 : ID3) :
  (forall k, is_chapter_key k = true -> remove_chapter_frames tags0 !! k = None) /\
  exists tags,
    new_tags chapters total_duration_ms tags0 = Ok tags /\
    size (keyed "CTOC" tags) = 1%nat /\
    size (keyed "CHAP" tags) = length chapters /\
    (forall k fr, is_chapter_key k = true -> tags !! k = Some fr ->
       fr = ctoc chapters \/ fr ∈ chapter_frames chapters total_duration_ms) /\
    (forall k, is_chapter_key k = false -> tags !! k = tags0 !! k) /\
    (forall earlier earlier_total tags1,
       new_tags earlier earlier_total tags0 = Ok tags1 ->
       new_tags chapters total_duration_ms tags1 = Ok tags).
Proof.
  split.
  { intros k Hk. by rewrite remove_chapter_frames_lookup, Hk. }
  destruct (new_tags_lookup chapters total_duration_ms tags0)
    as (tags & Hnew & Hchap & Htoc & Hother & Honly).
  exists tags. split; [done|].
  repeat split.
  - apply (keyed_size "CTOC" tags ["CTOC:toc"]).
    { apply NoDup_singleton. }
    intros k. rewrite list_elem_of_singleton. split.
    + intros ->. rewrite Htoc. split; [by eexists|done].
    + intros [Hs Hw].
      destruct (Honly k) as [->|(i & _ & ->)]; [|done|done|discriminate Hw].
      unfold is_chapter_key. rewrite Hw. apply orb_true_r.
  - trans (length (chap_key <$> seq 0 (length chapters)));
      [|by rewrite length_fmap, length_seq].
    apply keyed_size.
    { apply NoDup_fmap_2; [apply _|apply NoDup_seq]. }
    intros k. rewrite list_elem_of_fmap. split.
    + intros (i & -> & Hi). apply elem_of_seq in Hi.
      destruct (lookup_lt_is_Some_2 chapters i) as [sd Hsd]; [lia|].
      rewrite (Hchap i sd Hsd). split; [by eexists|done].
    + intros [Hs Hw].
      destruct (Honly k) as [->|(i & Hi & ->)]; [|done|discriminate Hw|].
      * unfold is_chapter_key. by rewrite Hw.
      * exists i. split; [done|]. apply elem_of_seq. lia.
  - intros k fr Hk Hfr.
    destruct (Honly k Hk) as [->|(i & Hi & ->)]; [by eexists| |].
    + left. rewrite Htoc in Hfr. by injection Hfr.
    + right. destruct (lookup_lt_is_Some_2 chapters i) as [sd Hsd]; [lia|].
      rewrite (Hchap i sd Hsd) in Hfr. injection Hfr as <-.
      unfold chapter_frames. apply list_elem_of_lookup. exists i.
      by rewrite list_lookup_imap, Hsd.
  - exact Hother.
  - intros earlier earlier_total tags1 H1.
    destruct (new_tags_lookup earlier earlier_total tags0)
      as (tags1' & H1' & _ & _ & Hother1 & _).
    rewrite H1 in H1'. injection H1' as <-.
    destruct (new_tags_lookup chapters total_duration_ms tags1)
      as (tags2 & -> & Hchap2 & Htoc2 & Hother2 & Honly2).
    f_equal. apply map_eq. intros k.
    destruct (is_chapter_key k) eqn:Ek.
    + destruct (tags2 !! k) as [fr|] eqn:E2.
      * destruct (Honly2 k Ek) as [->|(i & Hi & ->)]; [by eexists| |].
        -- by rewrite <- E2, Htoc2, Htoc.
        -- destruct (lookup_lt_is_Some_2 chapters i) as [sd Hsd]; [lia|].
           by rewrite <- E2, (Hchap2 i sd Hsd), (Hchap i sd Hsd).
      * destruct (tags !! k) as [fr|] eqn:E; [|done].
        destruct (Honly k Ek) as [->|(i & Hi & ->)]; [by eexists| |].
        -- by rewrite Htoc2 in E2.
        -- destruct (lookup_lt_is_Some_2 chapters i) as [sd Hsd]; [lia|].
           by rewrite (Hchap2 i sd Hsd) in E2.
    + by rewrite (Hother2 k Ek), (Hother1 k Ek), (Hother k Ek).
Qed.

Lemma reembedding_replaces_witness :
  exists tags,
    new_tags sample_chapters 300000 processed_tags = Ok tags /\
    size (keyed "CTOC" tags) = 1%nat /\
    size (keyed "CHAP" tags) = 2%nat.
Proof.
  destruct (proj2 (reembedding_replaces sample_chapters 300000 processed_tags))
    as (tags & Hnew & Htoc & Hchap & _).
  exists tags. split; [exact Hnew|]. split; [exact Htoc|exact Hchap].
Defined.

(** [pad2 n] is a numeral of [n], two characters wide up to 99. *)
Lemma pad2_value (n : nat) : decimal_value (pad2 n) = Some n.
Proof.
  unfold decimal_value, pad2.
  destruct (String.length _ <? 2)%nat.
  - change (NilEmpty.uint_of_string ("0" ++ ?d))
      with (uint_of_char "0" (NilEmpty.uint_of_string d)).
    rewrite NilEmpty.usu. simpl. f_equal.
    change (Nat.of_uint (Decimal.D0 (Nat.to_uint n))) with (Nat.of_uint (Nat.to_uint n)).
    apply Unsigned.of_to.
  - rewrite NilEmpty.usu. simpl. f_equal. apply Unsigned.of_to.
Qed.

Lemma pad2_width (n : nat) : (n < 100)%nat -> String.length (pad2 n) = 2%nat.
Proof.
  intros Hn.
  assert (H : forallb (fun k => (String.length (pad2 k) =? 2)%nat) (seq 0 100) = true)
    by (vm_compute; reflexivity).
  rewrite forallb_forall in H. apply Nat.eqb_eq, H, in_seq. lia.
Qed.

Lemma of_uint_acc_ge (d : Decimal.uint) (acc : nat) :
  (acc <= Nat.of_uint_acc d acc)%nat.
Proof.
  revert acc. induction d; intros acc; simpl; [lia|..];
    (etransitivity; [|apply IHd]); rewrite Nat.tail_mul_spec; lia.
Qed.

(** The numeral of a number starts with 0 only when it is "0". *)
Lemma to_uint_head (n : nat) (d : Decimal.uint) :
  Nat.to_uint n <> Decimal.D0 d \/ d = Decimal.Nil.
Proof.
  destruct d as [| | | | | | | | | |]; [by right|left..]; intros H;
  pose proof (Unsigned.to_of (Nat.to_uint n)) as Hn;
  rewrite Unsigned.of_to, H in Hn;
  apply (f_equal Decimal.nb_digits) in Hn;
  unfold Decimal.unorm in Hn; cbn [Decimal.nzhead] in Hn;
  match type of Hn with
  | context [Decimal.nzhead ?x] =>
      pose proof (DecimalFacts.nb_digits_nzhead x) as Hle;
      destruct (Decimal.nzhead x); simpl in *; lia
  | _ => simpl in Hn; lia
  end.
Qed.

(** The numerals of one character are those of the numbers below 10. *)
Lemma decimal_short (n : nat) :
  (String.length (decimal n) <? 2)%nat = (n <? 10)%nat.
Proof.
  unfold decimal. pose proof (Unsigned.of_to n) as Hof.
  destruct (Nat.to_uint n) as [|d|d|d|d|d|d|d|d|d|d] eqn:E.
  1: by rewrite <- Hof.
  1: { destruct (to_uint_head n d) as [H | ->]; [done|]. by rewrite <- Hof. }
  all: destruct d; [by rewrite <- Hof|..].
  all: transitivity false; [apply Nat.ltb_ge; simpl; lia|].
  all: symmetry; apply Nat.ltb_ge; rewrite <- Hof.
  all: unfold Nat.of_uint; cbn [Nat.of_uint_acc].
  all: (etransitivity; [|apply of_uint_acc_ge]); rewrite !Nat.tail_mul_spec; lia.
Qed.

(** [02d]: one zero before the numeral of a number below 10, the
    numeral itself from 10 on. *)
Lemma pad2_exact (n : nat) :
  pad2 n = if (n <? 10)%nat then "0" ++ decimal n else decimal n.
Proof. unfold pad2. fold (decimal n). by rewrite decimal_short. Qed.

Example decimal_samples :
  decimal 0 = "0" /\ decimal 7 = "7" /\ decimal 10 = "10" /\ decimal 100 = "100".
Proof. vm_compute. repeat split. Qed.

(** C8.  The chapter at position [i] gets the element identifier "chp"
    followed by the decimal numeral of [i + 1], with one zero before it
    when the numeral has a single digit and nothing added otherwise, so
    that it is two characters wide up to the 99th chapter; the container
    holds one table of contents, with element identifier "toc", both the
    top-level and the ordered flag, and the identifiers of all chapters,
    in chapter order, as its children. *)
Theorem element_ids (chapters : list seed) (total_duration_ms : Z) (tags0 : ID3) :
  exists tags,
    new_tags chapters total_duration_ms tags0 = Ok tags /\
    (forall i sd, chapters !! i = Some sd ->
       exists fr digits,
         tags !! chap_key i = Some fr /\
         frame_id fr = Some ("chp" ++ digits) /\
         digits = (if (i + 1 <? 10)%nat then "0" ++ decimal (i + 1)
                   else decimal (i + 1)) /\
         decimal_value digits = Some (i + 1)%nat /\
         ((i + 1 < 100)%nat -> String.length digits = 2%nat)) /\
    (exists flags children sub,
       tags !! "CTOC:toc" = Some (CTOC "toc" flags children sub) /\
       Z.land flags TOP_LEVEL = TOP_LEVEL /\
       Z.land flags ORDERED = ORDERED /\
       length children = length chapters /\
       (forall i sd, chapters !! i = Some sd ->
          exists fr, tags !! chap_key i = Some fr /\ frame_id fr = children !! i) /\
       (forall i, children !! i = Some (element_id i) \/
                  ((length chapters <= i)%nat /\ children !! i = None))) /\
    (forall k, startswith "CTOC" k = true -> is_Some (tags !! k) -> k = "CTOC:toc").
Proof.
  destruct (new_tags_lookup chapters total_duration_ms tags0)
    as (tags & Hnew & Hchap & Htoc & _ & Honly).
  exists tags. split; [done|]. split; [|split].
  - intros i sd Hi. exists (chapter_frame chapters total_duration_ms i sd), (pad2 (i + 1)).
    split; [by apply Hchap|]. split; [done|].
    split; [apply pad2_exact|].
    split; [apply pad2_value|apply pad2_width].
  - exists (Z.lor TOP_LEVEL ORDERED), (child_ids chapters), [MkTIT2 3 ["I'm a TOC"]].
    split; [exact Htoc|]. split; [done|]. split; [done|].
    unfold child_ids. split; [by rewrite length_imap|]. split.
    + intros i sd Hi. exists (chapter_frame chapters total_duration_ms i sd).
      split; [by apply Hchap|].
      by rewrite list_lookup_imap, Hi.
    + intros i. rewrite list_lookup_imap.
      destruct (chapters !! i) as [sd|] eqn:Hi; [by left|right].
      split; [by apply lookup_ge_None|done].
  - intros k Hk Hsome.
    destruct (Honly k) as [-> | (i & _ & ->)]; [|done|done|discriminate Hk].
    unfold is_chapter_key. rewrite Hk. apply orb_true_r.
Qed.

Lemma element_ids_witness :
  exists tags fr,
    new_tags sample_chapters 300000 processed_tags = Ok tags /\
    tags !! chap_key 1 = Some fr /\
    frame_id fr = Some "chp02".
Proof.
  destruct (element_ids sample_chapters 300000 processed_tags)
    as (tags & Hnew & Hids & _).
  destruct (Hids 1%nat ("Main", 180000) eq_refl)
    as (fr & digits & Hfr & Hid & Hdigits & _).
  exists tags, fr.
  split; [exact Hnew|]. split; [exact Hfr|].
  rewrite Hid, Hdigits. reflexivity.
Defined.

Example element_id_samples :
  element_id 0 = "chp01" /\ element_id 8 = "chp09" /\ element_id 9 = "chp10"
  /\ element_id 98 = "chp99" /\ element_id 99 = "chp100".
Proof. vm_compute. repeat split. Qed.

(** ** Timecode conversion *)

Example timecode_samples :
  timecode_ms 12 34 56 = Ok 754746 /\
  timecode_ms 3 0 0 = Ok 180000 /\
  timecode_ms 0 0 74 = Ok 986 /\
  timecode_ms 0 1 27 = Ok 1359 /\
  timecode_ms 99 59 74 = Ok 5999986.
Proof. vm_compute. repeat split. Qed.

(** [int] of a float with a fractional part drops the fraction: the
    result [t] of [int] on [m * 2^e], [e < 0], has [|t| <= m * 2^e <
    |t| + 1] and the sign of the float. *)
Lemma int_of_float_truncates (sign : bool) (m : positive) (e : Z) :
  e < 0 ->
  exists t,
    int_of_float (S754_finite sign m e) = Ok t /\
    Z.abs t * 2 ^ (- e) <= Z.pos m < (Z.abs t + 1) * 2 ^ (- e) /\
    t = (if sign then - Z.abs t else Z.abs t).
Proof.
  intros He. unfold int_of_float.
  destruct (0 <=? e) eqn:E; [apply Z.leb_le in E; lia|].
  assert (Hk : 0 < 2 ^ (- e)) by (apply Z.pow_pos_nonneg; lia).
  assert (Hq : 0 <= Z.pos m / 2 ^ (- e)) by (apply Z.div_pos; lia).
  pose proof (Z.mul_div_le (Z.pos m) (2 ^ (- e)) Hk).
  pose proof (Z.mul_succ_div_gt (Z.pos m) (2 ^ (- e)) Hk).
  eexists. split; [done|].
  destruct sign; rewrite ?Z.abs_opp, Z.abs_eq by done; split; [lia|done|lia|done].
Qed.

(** C2, as amended.  On a line that reaches the INDEX 01 branch (it
    contains INDEX 01 and starts with neither TRACK nor TITLE), whose last
    whitespace-delimited token splits on ':' into three fields that [int]
    accepts, the parser sets the time to
    [int((minutes*60 + seconds + frames/75.0) * 1000)]: the double
    precision value, truncated by [int], not rounded.  The token 12:34:56
    yields 754746. *)
Theorem index_line_time (st : pstate) (raw token ms ss fs : string) (m s f t : Z) :
  is_track (strip raw) = false ->
  is_title (strip raw) = false ->
  is_index (strip raw) = true ->
  last_item (split_ws (strip raw)) = Ok token ->
  split_on ":" token = [ms; ss; fs] ->
  int ms = Ok m -> int ss = Ok s -> int fs = Ok f ->
  timecode_ms m s f = Ok t ->
  loop_body st raw
    = Ok (PState (chapters st) (current_title st) (Some t) (time_errors st))
  /\ (forall ff fw, float_of_int f = Ok ff -> float_of_int (m * 60 + s) = Ok fw ->
        int_of_float (fmul (fadd fw (fdiv ff f75)) f1000) = Ok t)
  /\ timecode_ms 12 34 56 = Ok 754746.
Proof.
  intros Htrack Htitle Hindex Htok Hsplit Hm Hs Hf Ht.
  split; [|split].
  - unfold loop_body. rewrite Htrack, Htitle, Hindex.
    unfold index_time. rewrite Htok. simpl. rewrite Hsplit, Hm. simpl.
    rewrite Hs. simpl. rewrite Hf. simpl. by rewrite Ht.
  - intros ff fw Hff Hfw. unfold timecode_ms in Ht.
    rewrite Hff in Ht. simpl in Ht. rewrite Hfw in Ht. exact Ht.
  - vm_compute. reflexivity.
Qed.

Lemma index_line_time_witness :
  loop_body initial (INDEX_line "12:34:56")
    = Ok (PState [] None (Some 754746) []).
Proof.
  apply (index_line_time initial (INDEX_line "12:34:56") "12:34:56"
           "12" "34" "56" 12 34 56 754746); vm_compute; reflexivity.
Defined.

(** C2 as stated fails: rounding would give 754747 for 12:34:56, the
    parser gives 754746. *)
Lemma rounding_not_used :
  spec_round_ms 12 34 56 = 754747 /\
  loop_body initial (INDEX_line "12:34:56")
    = Ok (PState [] None (Some 754746) []) /\
  index_time (strip (INDEX_line "12:34:56")) <> Ok (spec_round_ms 12 34 56).
Proof.
  split; [vm_compute; reflexivity|]. split; [vm_compute; reflexivity|].
  vm_compute. discriminate.
Qed.

(** ** Files: backup, save, restore and deletion *)

Section Files.

Implicit Types (w : world) (lib : mutagen) (flt : faults).

Lemma backup_path_fresh (path : string) : (path ++ ".bak")%string <> path.
Proof.
  induction path as [|c path IH]; simpl; [discriminate|].
  intros H. injection H as H. by apply IH.
Qed.

Example sample_run :
  process_files sample_lib no_fault "a.mp3.cue" "a.mp3" sample_world
  = (true,
     World {[ "a.mp3" := "ID3AUDIO" ]}
           [ FoundChapters 2; BackupCreated "a.mp3.bak"; ChaptersEmbedded;
             BackupDeleted "a.mp3.bak"; CueDeleted "a.mp3.cue" ]).
Proof. vm_compute. reflexivity. Qed.

Example sample_run_backup_stays :
  process_files sample_lib backup_removal_fails "a.mp3.cue" "a.mp3" sample_world
  = (false,
     World {[ "a.mp3" := "ID3AUDIO"; "a.mp3.bak" := "AUDIO"; "a.mp3.cue" := sample_cue ]}
           [ FoundChapters 2; BackupCreated "a.mp3.bak"; ChaptersEmbedded;
             ErrorDuringProcessing OSError ]).
Proof. vm_compute. reflexivity. Qed.

Lemma copy_file_keeps o src dst w r w' p :
  copy_file o src dst w = (r, w') ->
  is_Some (files w !! p) -> is_Some (files w' !! p).
Proof.
  unfold copy_file. intros H Hp.
  destruct (files w !! src); [|by injection H as <- <-].
  destruct o as [|e [n|]]; injection H as <- <-; simpl; try done;
    rewrite lookup_insert; by case_decide.
Qed.

Lemma save_keeps lib o tags path w r w' p :
  save lib o tags path w = (r, w') ->
  is_Some (files w !! p) -> is_Some (files w' !! p).
Proof.
  unfold save. intros H Hp.
  destruct o as [|e [remains|]]; injection H as <- <-; simpl; try done;
    rewrite lookup_insert; by case_decide.
Qed.

Lemma create_backup_keeps flt mp3_path backup_file w p :
  is_Some (files w !! p) ->
  is_Some (files (create_backup flt mp3_path backup_file w) !! p).
Proof.
  unfold create_backup. intros Hp.
  destruct (exists_ backup_file w); [done|].
  destruct (copy_file _ _ _ w) as [[[]|e] w'] eqn:E; simpl;
    by eapply copy_file_keeps.
Qed.

Lemma save_or_restore_keeps lib flt tags mp3_path backup_file w r w' p :
  save_or_restore lib flt tags mp3_path backup_file w = (r, w') ->
  is_Some (files w !! p) -> is_Some (files w' !! p).
Proof.
  unfold save_or_restore. intros H Hp.
  destruct (save lib _ tags mp3_path w) as [[[]|e] w1] eqn:E.
  - injection H as <- <-. simpl. by eapply save_keeps.
  - pose proof (save_keeps _ _ _ _ _ _ _ p E Hp) as Hp1.
    destruct (copy_file _ backup_file mp3_path _) as [[[]|e'] w2] eqn:E2;
      injection H as <- <-; simpl;
      eapply copy_file_keeps; [exact E2|done|exact E2|done].
Qed.

(** [embed_chapters] deletes no file. *)
Lemma embed_chapters_keeps lib flt mp3_path chs w r w' p :
  embed_chapters lib flt mp3_path chs w = (r, w') ->
  is_Some (files w !! p) -> is_Some (files w' !! p).
Proof.
  unfold embed_chapters. intros H Hp.
  destruct (prepare_tags lib mp3_path chs w) as [tags|e]; [|by injection H as <- <-].
  destruct (save_or_restore _ _ _ _ _ _) as [[[]|e] w1] eqn:E;
    injection H as <- <-;
    (eapply save_or_restore_keeps; [exact E|]); by apply create_backup_keeps.
Qed.

Lemma embed_chapters_returns lib flt mp3_path chs w backup_file w' :
  embed_chapters lib flt mp3_path chs w = (Ok backup_file, w') ->
  backup_file = (mp3_path ++ ".bak")%string.
Proof.
  unfold embed_chapters. intros H.
  destruct (prepare_tags lib mp3_path chs w); [|discriminate].
  destruct (save_or_restore _ _ _ _ _ _) as [[[]|e] w1]; congruence.
Qed.

Lemma parse_cue_file_files cue_path w r w' :
  parse_cue_file cue_path w = (r, w') -> files w' = files w.
Proof.
  unfold parse_cue_file. intros H.
  destruct (files w !! cue_path) as [data|]; [|by injection H as <- <-].
  destruct (parse_cue_text data) as [[chs errs]|e]; by injection H as <- <-.
Qed.

Lemma exists_false path w : files w !! path = None -> exists_ path w = false.
Proof.
  intros H. unfold exists_. apply bool_decide_eq_false. rewrite H.
  apply is_Some_None.
Qed.

Lemma exists_true path w : exists_ path w = true <-> is_Some (files w !! path).
Proof. unfold exists_. apply bool_decide_eq_true. Qed.

Lemma parse_cue_file_exists cue_path w chs w' :
  parse_cue_file cue_path w = (Ok chs, w') -> is_Some (files w !! cue_path).
Proof.
  unfold parse_cue_file. intros H.
  destruct (files w !! cue_path); [by eexists|discriminate].
Qed.

(** A removal that is not needed, or does not raise. *)
Lemma remove_if_exists_ok o deleted path w :
  (exists_ path w = true -> o = None) ->
  exists w',
    remove_if_exists o deleted path w = (Ok tt, w') /\
    files w' = delete path (files w) /\
    (forall msg, msg ∈ console w -> msg ∈ console w').
Proof.
  unfold remove_if_exists. intros Ho.
  destruct (exists_ path w) eqn:E.
  - rewrite (Ho eq_refl). simpl. eexists. split; [reflexivity|]. split; [done|].
    intros msg Hmsg. simpl. apply elem_of_app. by left.
  - exists w. split; [done|]. split; [|done].
    apply bool_decide_eq_false in E. apply eq_None_not_Some in E.
    symmetry. by apply delete_id.
Qed.

(** A removal that raises. *)
Lemma remove_if_exists_raise o deleted path w e :
  exists_ path w = true -> o = Some e ->
  remove_if_exists o deleted path w = (Raise e, w).
Proof. unfold remove_if_exists. by intros -> ->. Qed.

(** Either of the two. *)
Lemma remove_if_exists_cases o deleted path w :
  (exists w', remove_if_exists o deleted path w = (Ok tt, w') /\
              files w' = delete path (files w) /\
              (exists_ path w = true -> o = None) /\
              (forall msg, msg ∈ console w -> msg ∈ console w')) \/
  (exists e, remove_if_exists o deleted path w = (Raise e, w) /\
             exists_ path w = true /\ o = Some e).
Proof.
  destruct (exists_ path w) eqn:E; [destruct o as [e|] eqn:Eo|].
  - right. exists e. split; [by apply remove_if_exists_raise|done].
  - left. destruct (remove_if_exists_ok None deleted path w) as (w' & H & Hf & Hc); [done|].
    exists w'. by rewrite H.
  - left. destruct (remove_if_exists_ok o deleted path w) as (w' & H & Hf & Hc).
    { rewrite E. discriminate. }
    exists w'. split; [done|]. split; [done|]. split; [discriminate|done].
Qed.

(** C1, as amended.  When the save fails after the backup was created
    in this run, [embed_chapters] prints the error, raises it again and
    leaves the backup, a copy of the original file, on disk.  When the
    copy back from the backup succeeds, the MP3 file again holds the
    bytes it held before the run.  When the copy back fails too, its
    error is printed and the MP3 file is not restored: it holds what the
    failed save left in it when the copy failed before it opened the
    file, and the bytes the copy had written when it failed after it
    truncated the file. *)
Theorem persist_failure_rollback lib flt (mp3_path : string) (chs : list seed)
    w (tags : ID3) (data : string) (e : exn) (remains : option string) :
  prepare_tags lib mp3_path chs w = Ok tags ->
  files w !! mp3_path = Some data ->
  files w !! (mp3_path ++ ".bak")%string = None ->
  backup_io flt = Copied ->
  save_io flt = SaveFails e remains ->
  exists w',
    embed_chapters lib flt mp3_path chs w = (Raise e, w') /\
    files w' !! (mp3_path ++ ".bak")%string = Some data /\
    (restore_io flt = Copied ->
       files w' !! mp3_path = Some data /\ RestoredFromBackup ∈ console w') /\
    (forall e', restore_io flt = CopyFails e' None ->
       files w' !! mp3_path = Some (default data remains) /\
       ErrorRestoringBackup e' ∈ console w') /\
    (forall e' n, restore_io flt = CopyFails e' (Some n) ->
       files w' !! mp3_path = Some (String.substring 0 n data) /\
       ErrorRestoringBackup e' ∈ console w') /\
    files w' !! mp3_path = Some (after_restore (restore_io flt) remains data) /\
    ErrorSavingTags e ∈ console w'.
Proof.
  intros Hprep Hdata Hbak Hbackup Hsave.
  pose proof (backup_path_fresh mp3_path) as Hne.
  unfold embed_chapters. rewrite Hprep.
  unfold create_backup. rewrite (exists_false _ _ Hbak).
  unfold copy_file at 1. rewrite Hdata, Hbackup.
  unfold save_or_restore, save. rewrite Hsave.
  destruct remains as [partial|]; simpl;
    unfold copy_file; simpl;
    rewrite ?(lookup_insert_ne _ mp3_path) by done;
    rewrite lookup_insert_eq;
    destruct (restore_io flt) as [|e' [n|]]; simpl;
    (eexists; split; [reflexivity|]; simpl;
     split; [by rewrite ?(lookup_insert_ne _ mp3_path), lookup_insert_eq by done|];
     repeat split; simplify_eq; simpl;
     rewrite ?lookup_insert_eq, ?(lookup_insert_ne _ _ mp3_path) by done;
     try done;
     rewrite ?elem_of_app, ?list_elem_of_singleton; auto 8).
Qed.

Example sample_prepare :
  prepare_tags sample_lib "a.mp3" sample_chapters sample_world = Ok sample_tags.
Proof. vm_compute. reflexivity. Qed.

Lemma persist_failure_rollback_witness :
  exists w',
    embed_chapters sample_lib save_fails "a.mp3" sample_chapters sample_world
      = (Raise OSError, w') /\
    files w' !! "a.mp3.bak" = Some "AUDIO" /\
    files w' !! "a.mp3" = Some "AUDIO".
Proof.
  destruct (persist_failure_rollback sample_lib save_fails "a.mp3" sample_chapters
              sample_world sample_tags "AUDIO" OSError (Some "ID3AU")
              sample_prepare eq_refl eq_refl eq_refl eq_refl)
    as (w' & Hrun & Hbak & Hmp3 & _).
  exists w'. split; [exact Hrun|]. split; [exact Hbak|]. exact (proj1 (Hmp3 eq_refl)).
Defined.

(** C1 as stated fails: when the copy back from the backup fails too,
    the MP3 file is not restored.  Here the copy fails before it opens
    the file, which keeps the bytes the failed save left in it. *)
Lemma failed_restore_leaves_file_changed :
  files sample_world !! "a.mp3" = Some "AUDIO" /\
  files sample_world !! "a.mp3.bak" = None /\
  embed_chapters sample_lib save_and_restore_fail "a.mp3" sample_chapters sample_world
  = (Raise OSError,
     World {[ "a.mp3" := "ID3AU"; "a.mp3.bak" := "AUDIO"; "a.mp3.cue" := sample_cue ]}
           [ BackupCreated "a.mp3.bak"; ErrorSavingTags OSError;
             ErrorRestoringBackup OSError ]).
Proof. vm_compute. repeat split. Qed.

(** The same when the copy back fails after it has truncated the file:
    the file holds the two bytes written, neither the original nor what
    the save left. *)
Example failed_restore_truncates :
  embed_chapters sample_lib restore_truncates "a.mp3" sample_chapters sample_world
  = (Raise OSError,
     World {[ "a.mp3" := "AU"; "a.mp3.bak" := "AUDIO"; "a.mp3.cue" := sample_cue ]}
           [ BackupCreated "a.mp3.bak"; ErrorSavingTags OSError;
             ErrorRestoringBackup OSError ]).
Proof. vm_compute. reflexivity. Qed.

Lemma copy_file_console o src dst w r w' :
  copy_file o src dst w = (r, w') -> console w' = console w.
Proof.
  unfold copy_file. intros H.
  destruct (files w !! src); [|by injection H as <- <-].
  destruct o as [|e [n|]]; by injection H as <- <-.
Qed.

Lemma save_or_restore_outcome lib flt tags mp3_path backup_file w :
  exists r w',
    save_or_restore lib flt tags mp3_path backup_file w = (r, w') /\
    raises r = negb (is_saved (save_io flt)) /\
    (forall msg, msg ∈ console w -> msg ∈ console w') /\
    (save_io flt = Saved ->
     files w' = <[mp3_path := render lib tags (default "" (files w !! mp3_path))]> (files w)).
Proof.
  unfold save_or_restore, save.
  destruct (save_io flt) as [|e [remains|]]; simpl.
  - eexists _, _. split; [reflexivity|]. split; [done|]. split; [|done].
    intros msg Hmsg. simpl. apply elem_of_app. by left.
  - destruct (copy_file _ _ _ _) as [[[]|e'] w2] eqn:E;
      apply copy_file_console in E; simpl in E;
      eexists _, _; (split; [reflexivity|]); (split; [done|]); (split; [|done]);
      intros msg Hmsg; simpl; rewrite E, !elem_of_app; auto.
  - destruct (copy_file _ _ _ _) as [[[]|e'] w2] eqn:E;
      apply copy_file_console in E; simpl in E;
      eexists _, _; (split; [reflexivity|]); (split; [done|]); (split; [|done]);
      intros msg Hmsg; simpl; rewrite E, !elem_of_app; auto.
Qed.

(** What [process_files] does once [embed_chapters] has returned: the
    backup is removed if it exists, then the CUE file if it exists; the
    result is [True] when neither removal raises, and a removal that
    raises ends the run with what was removed before it. *)
Lemma process_files_removals lib flt (cue_path mp3_path : string) w
    (chs : list seed) w0 (backup_file : string) w1 :
  parse_cue_file cue_path w = (Ok chs, w0) ->
  chs <> [] ->
  embed_chapters lib flt mp3_path chs (print (FoundChapters (length chs)) w0)
    = (Ok backup_file, w1) ->
  let bak := (mp3_path ++ ".bak")%string in
  let ok1 := negb (exists_ bak w1) || removes (remove_backup_io flt) in
  let ok2 := negb (exists_ cue_path (remove bak w1)) || removes (remove_cue_io flt) in
  exists w',
    process_files lib flt cue_path mp3_path w = (ok1 && ok2, w') /\
    files w' = (if ok1
                then if ok2 then delete cue_path (delete bak (files w1))
                     else delete bak (files w1)
                else files w1) /\
    (forall msg, msg ∈ console w1 -> msg ∈ console w').
Proof.
  intros Hparse Hchs Hembed bak ok1 ok2.
  pose proof (embed_chapters_returns _ _ _ _ _ _ _ Hembed) as ->. fold bak in Hembed.
  unfold process_files. rewrite Hparse.
  destruct chs as [|sd chs]; [done|].
  rewrite Hembed. fold bak.
  destruct (remove_if_exists_cases (remove_backup_io flt) BackupDeleted bak w1)
    as [(w2 & -> & Hf2 & Ho2 & Hc2)|(eb & -> & Hex & Ho)].
  - assert (Hok1 : ok1 = true).
    { unfold ok1. destruct (exists_ bak w1); [|done]. by rewrite Ho2. }
    assert (Hex2 : exists_ cue_path w2 = exists_ cue_path (remove bak w1)).
    { unfold exists_. simpl. by rewrite Hf2. }
    rewrite Hok1.
    destruct (remove_if_exists_cases (remove_cue_io flt) CueDeleted cue_path w2)
      as [(w3 & -> & Hf3 & Ho3 & Hc3)|(ec & -> & Hex3 & Ho3)].
    + assert (Hok2 : ok2 = true).
      { unfold ok2. rewrite <- Hex2. destruct (exists_ cue_path w2); [|done].
        by rewrite Ho3. }
      rewrite Hok2. exists w3. split; [done|]. split; [by rewrite Hf3, Hf2|]. auto.
    + assert (Hok2 : ok2 = false).
      { unfold ok2. by rewrite <- Hex2, Hex3, Ho3. }
      rewrite Hok2. eexists. split; [reflexivity|]. split; [done|].
      intros msg Hmsg. simpl. apply elem_of_app. auto.
  - assert (Hok1 : ok1 = false).
    { unfold ok1. by rewrite Hex, Ho. }
    rewrite Hok1. eexists. split; [reflexivity|]. split; [done|].
    intros msg Hmsg. simpl. apply elem_of_app. auto.
Qed.

(** C6, as amended.  When the backup cannot be created the error is
    printed and the run goes on without a backup: the tags are saved all
    the same, and [process_files] returns [True] exactly when the save
    and the removals that follow it succeed: that of what the failed
    copy left of the backup, if it left anything, and that of the CUE
    file. *)
Theorem backup_failure_not_fatal lib flt (cue_path mp3_path : string) w
    (chs : list seed) w0 (tags : ID3) (data : string) (e : exn)
    (written : option nat) :
  parse_cue_file cue_path w = (Ok chs, w0) ->
  chs <> [] ->
  prepare_tags lib mp3_path chs (print (FoundChapters (length chs)) w0) = Ok tags ->
  files w !! mp3_path = Some data ->
  files w !! (mp3_path ++ ".bak")%string = None ->
  backup_io flt = CopyFails e written ->
  exists w',
    process_files lib flt cue_path mp3_path w
      = (is_saved (save_io flt)
         && match written with
            | Some _ => removes (remove_backup_io flt)
            | None => true
            end
         && removes (remove_cue_io flt), w') /\
    ErrorCreatingBackup e ∈ console w' /\
    (save_io flt = Saved ->
     exists w1,
       embed_chapters lib flt mp3_path chs (print (FoundChapters (length chs)) w0)
         = (Ok (mp3_path ++ ".bak")%string, w1) /\
       files w1 !! mp3_path = Some (render lib tags data)).
Proof.
  intros Hparse Hchs Hprep Hdata Hbak Hbackup.
  pose proof (backup_path_fresh mp3_path) as Hne.
  pose proof (parse_cue_file_files _ _ _ _ Hparse) as Hfiles.
  pose proof (parse_cue_file_exists _ _ _ _ Hparse) as Hcue.
  assert (Hcb : cue_path <> (mp3_path ++ ".bak")%string).
  { intros ->. rewrite Hbak in Hcue. by apply is_Some_None in Hcue. }
  set (w1 := print (FoundChapters (length chs)) w0) in *.
  assert (Hdata1 : files w1 !! mp3_path = Some data) by (simpl; by rewrite Hfiles).
  assert (Hbak1 : files w1 !! (mp3_path ++ ".bak")%string = None)
    by (simpl; by rewrite Hfiles).
  set (w2 := create_backup flt mp3_path (mp3_path ++ ".bak")%string w1).
  assert (Hw2 : ErrorCreatingBackup e ∈ console w2 /\
                files w2 !! mp3_path = Some data /\
                is_Some (files w2 !! cue_path) /\
                exists_ (mp3_path ++ ".bak")%string w2
                = match written with Some _ => true | None => false end).
  { unfold w2, create_backup. rewrite (exists_false _ _ Hbak1).
    unfold copy_file. rewrite Hdata1, Hbackup.
    destruct written as [n|]; simpl; rewrite elem_of_app, list_elem_of_singleton;
      (split; [by right|]).
    - rewrite !lookup_insert_ne by done. rewrite Hfiles.
      split; [done|]. split; [done|].
      apply bool_decide_eq_true. simpl. rewrite lookup_insert_eq. by eexists.
    - rewrite Hfiles. split; [done|]. split; [done|]. by apply exists_false. }
  destruct Hw2 as (Hmsg2 & Hdata2 & Hcue2 & Hbak2).
  destruct (save_or_restore_outcome lib flt tags mp3_path (mp3_path ++ ".bak")%string w2)
    as (r & w3 & Hsr & Hr & Hcons & Hsaved).
  assert (Hembed : embed_chapters lib flt mp3_path chs w1
                   = (match r with Ok _ => Ok (mp3_path ++ ".bak")%string
                              | Raise err => Raise err end, w3)).
  { unfold embed_chapters. rewrite Hprep. fold w2. rewrite Hsr. by destruct r as [[]|]. }
  destruct r as [[]|err]; simpl in Hr.
  - destruct (save_io flt) as [|es rem] eqn:Es; [|done]. simpl.
    specialize (Hsaved eq_refl).
    destruct (process_files_removals lib flt cue_path mp3_path w chs w0 _ w3
                Hparse Hchs Hembed) as (w' & Hrun & _ & Hc').
    assert (Hex1 : exists_ (mp3_path ++ ".bak")%string w3
                   = match written with Some _ => true | None => false end).
    { rewrite <- Hbak2. unfold exists_. rewrite Hsaved.
      by rewrite lookup_insert_ne. }
    assert (Hex2 : exists_ cue_path (remove (mp3_path ++ ".bak")%string w3) = true).
    { apply bool_decide_eq_true. simpl. rewrite lookup_delete_ne by done.
      rewrite Hsaved. rewrite lookup_insert. case_decide; [by eexists|done]. }
    rewrite Hex1, Hex2 in Hrun. simpl in Hrun.
    exists w'. split.
    + rewrite Hrun. by destruct written.
    + split; [auto|]. intros _. exists w3. split; [done|].
      by rewrite Hsaved, lookup_insert_eq, Hdata2.
  - destruct (is_saved (save_io flt)) eqn:Es; [done|]. simpl.
    unfold process_files. rewrite Hparse.
    destruct chs as [|sd chs]; [done|].
    fold w1. rewrite Hembed.
    eexists. split; [reflexivity|]. split.
    + simpl. rewrite elem_of_app. auto.
    + intros Hs. rewrite Hs in Es. discriminate.
Qed.

Example sample_parse :
  parse_cue_file "a.mp3.cue" sample_world = (Ok sample_chapters, sample_world).
Proof. vm_compute. reflexivity. Qed.

Example sample_prepare_found :
  prepare_tags sample_lib "a.mp3" sample_chapters
    (print (FoundChapters (length sample_chapters)) sample_world) = Ok sample_tags.
Proof. vm_compute. reflexivity. Qed.

Lemma backup_failure_not_fatal_witness :
  exists w',
    process_files sample_lib backup_fails "a.mp3.cue" "a.mp3" sample_world = (true, w') /\
    ErrorCreatingBackup OSError ∈ console w'.
Proof.
  destruct (backup_failure_not_fatal sample_lib backup_fails "a.mp3.cue" "a.mp3"
              sample_world sample_chapters sample_world sample_tags "AUDIO" OSError None
              sample_parse ltac:(discriminate) sample_prepare_found
              eq_refl eq_refl eq_refl)
    as (w' & Hrun & Hmsg & _).
  exists w'. split; [exact Hrun|exact Hmsg].
Defined.

(** C6 as stated fails: the backup cannot be created, yet the tags are
    saved into the file and the run is reported as a success. *)
Lemma backup_failure_still_saves :
  process_files sample_lib backup_fails "a.mp3.cue" "a.mp3" sample_world
  = (true,
     World {[ "a.mp3" := "ID3AUDIO" ]}
           [ FoundChapters 2; ErrorCreatingBackup OSError; ChaptersEmbedded;
             CueDeleted "a.mp3.cue" ]).
Proof. vm_compute. reflexivity. Qed.

Example sample_embed :
  embed_chapters sample_lib no_fault "a.mp3" sample_chapters
    (print (FoundChapters (length sample_chapters)) sample_world)
  = (Ok "a.mp3.bak",
     World {[ "a.mp3" := "ID3AUDIO"; "a.mp3.bak" := "AUDIO"; "a.mp3.cue" := sample_cue ]}
           [ FoundChapters 2; BackupCreated "a.mp3.bak"; ChaptersEmbedded ]).
Proof. vm_compute. reflexivity. Qed.

(** C7, as amended.  [process_files] deletes nothing before
    [embed_chapters] has returned: when the CUE file cannot be read,
    yields no chapter, or [embed_chapters] raises, the result is [False]
    and no file is removed, the backup left by [embed_chapters]
    included.  When [embed_chapters] has returned, the backup is removed
    and then the CUE file, each if it exists; when neither removal raises
    the result is [True] and neither file exists any more.  A removal
    that raises makes the result [False]: that of the backup leaves both
    files on disk, that of the CUE file leaves the CUE file, the backup
    being already gone.  The result is [True] only after
    [embed_chapters] has returned and with both files gone. *)
Theorem deletion_only_after_success lib flt (cue_path mp3_path : string) w :
  let bak := (mp3_path ++ ".bak")%string in
  (forall e w0,
     parse_cue_file cue_path w = (Raise e, w0) ->
     exists w', process_files lib flt cue_path mp3_path w = (false, w') /\
                files w' = files w) /\
  (forall w0,
     parse_cue_file cue_path w = (Ok [], w0) ->
     exists w', process_files lib flt cue_path mp3_path w = (false, w') /\
                files w' = files w) /\
  (forall chs w0 e w1,
     parse_cue_file cue_path w = (Ok chs, w0) -> chs <> [] ->
     embed_chapters lib flt mp3_path chs (print (FoundChapters (length chs)) w0)
       = (Raise e, w1) ->
     exists w', process_files lib flt cue_path mp3_path w = (false, w') /\
                files w' = files w1 /\
                (forall p, is_Some (files w !! p) -> is_Some (files w' !! p))) /\
  (forall chs w0 backup_file w1,
     parse_cue_file cue_path w = (Ok chs, w0) -> chs <> [] ->
     embed_chapters lib flt mp3_path chs (print (FoundChapters (length chs)) w0)
       = (Ok backup_file, w1) ->
     backup_file = bak /\
     ((exists_ bak w1 = true -> remove_backup_io flt = None) ->
      (exists_ cue_path (remove bak w1) = true -> remove_cue_io flt = None) ->
      exists w', process_files lib flt cue_path mp3_path w = (true, w') /\
                 files w' = delete cue_path (delete bak (files w1)) /\
                 files w' !! bak = None /\ files w' !! cue_path = None) /\
     (forall e, exists_ bak w1 = true -> remove_backup_io flt = Some e ->
      exists w', process_files lib flt cue_path mp3_path w = (false, w') /\
                 files w' = files w1) /\
     (forall e, (exists_ bak w1 = true -> remove_backup_io flt = None) ->
                exists_ cue_path (remove bak w1) = true ->
                remove_cue_io flt = Some e ->
      exists w', process_files lib flt cue_path mp3_path w = (false, w') /\
                 files w' = delete bak (files w1) /\
                 files w' !! bak = None /\ is_Some (files w' !! cue_path))) /\
  (forall w',
     process_files lib flt cue_path mp3_path w = (true, w') ->
     files w' !! bak = None /\ files w' !! cue_path = None /\
     exists chs w0 w1,
       parse_cue_file cue_path w = (Ok chs, w0) /\ chs <> [] /\
       embed_chapters lib flt mp3_path chs (print (FoundChapters (length chs)) w0)
         = (Ok bak, w1)).
Proof.
  intros bak.
  assert (Hgone : forall (fs : gmap string string),
            delete cue_path (delete bak fs) !! bak = None /\
            delete cue_path (delete bak fs) !! cue_path = None).
  { intros fs. split; [|apply lookup_delete_eq].
    rewrite lookup_delete. case_decide; [done|apply lookup_delete_eq]. }
  split; [|split; [|split; [|split]]].
  - intros e w0 Hparse. unfold process_files. rewrite Hparse.
    eexists. split; [reflexivity|]. simpl. by eapply parse_cue_file_files.
  - intros w0 Hparse. unfold process_files. rewrite Hparse.
    eexists. split; [reflexivity|]. simpl. by eapply parse_cue_file_files.
  - intros chs w0 e w1 Hparse Hchs Hembed. unfold process_files. rewrite Hparse.
    destruct chs as [|sd chs]; [done|]. rewrite Hembed.
    eexists. split; [reflexivity|]. split; [done|].
    intros p Hp. simpl. eapply embed_chapters_keeps; [exact Hembed|].
    simpl. by rewrite (parse_cue_file_files _ _ _ _ Hparse).
  - intros chs w0 backup_file w1 Hparse Hchs Hembed.
    split; [by eapply embed_chapters_returns|].
    destruct (process_files_removals lib flt cue_path mp3_path w chs w0 _ w1
                Hparse Hchs Hembed) as (w' & Hrun & Hf & _).
    fold bak in Hrun, Hf.
    split; [|split].
    + intros Hb Hc. exists w'.
      assert (H1 : negb (exists_ bak w1) || removes (remove_backup_io flt) = true).
      { destruct (exists_ bak w1); [|done]. by rewrite Hb. }
      assert (H2 : negb (exists_ cue_path (remove bak w1))
                   || removes (remove_cue_io flt) = true).
      { destruct (exists_ cue_path (remove bak w1)); [|done]. by rewrite Hc. }
      rewrite H1, H2 in Hrun, Hf. split; [done|]. split; [done|].
      rewrite Hf. apply Hgone.
    + intros e Hex Ho. exists w'. rewrite Hex, Ho in Hrun, Hf. done.
    + intros e Hb Hex Ho. exists w'.
      assert (H1 : negb (exists_ bak w1) || removes (remove_backup_io flt) = true).
      { destruct (exists_ bak w1); [|done]. by rewrite Hb. }
      rewrite H1, Hex, Ho in Hrun, Hf. simpl in Hrun, Hf.
      split; [done|]. split; [done|]. rewrite Hf.
      split; [apply lookup_delete_eq|]. by apply exists_true in Hex.
  - intros w' Hrun.
    destruct (parse_cue_file cue_path w) as [[chs|e] w0] eqn:Hparse.
    2:{ unfold process_files in Hrun. rewrite Hparse in Hrun. discriminate. }
    destruct chs as [|sd chs].
    { unfold process_files in Hrun. rewrite Hparse in Hrun. discriminate. }
    destruct (embed_chapters lib flt mp3_path (sd :: chs)
                (print (FoundChapters (length (sd :: chs))) w0))
      as [[backup_file|e] w1] eqn:Hembed.
    2:{ unfold process_files in Hrun. rewrite Hparse, Hembed in Hrun. discriminate. }
    destruct (process_files_removals lib flt cue_path mp3_path w (sd :: chs) w0 _ w1
                Hparse ltac:(done) Hembed) as (w'' & Hrun' & Hf & _).
    fold bak in Hrun', Hf.
    rewrite Hrun in Hrun'. injection Hrun' as Hok <-.
    symmetry in Hok. apply andb_prop in Hok as [H1 H2].
    rewrite H1, H2 in Hf. rewrite Hf.
    split; [apply Hgone|]. split; [apply Hgone|].
    exists (sd :: chs), w0, w1.
    pose proof (embed_chapters_returns _ _ _ _ _ _ _ Hembed) as ->. done.
Qed.

Lemma deletion_only_after_success_witness :
  exists w',
    process_files sample_lib no_fault "a.mp3.cue" "a.mp3" sample_world = (true, w') /\
    files w' !! "a.mp3.bak" = None /\ files w' !! "a.mp3.cue" = None.
Proof.
  destruct (deletion_only_after_success sample_lib no_fault "a.mp3.cue" "a.mp3"
              sample_world) as (_ & _ & _ & Hok & _).
  destruct (Hok sample_chapters sample_world _ _ sample_parse ltac:(discriminate)
              sample_embed) as (_ & Hdel & _).
  destruct (Hdel ltac:(reflexivity) ltac:(reflexivity)) as (w' & Hrun & _ & Hbak & Hcue).
  exists w'. split; [exact Hrun|]. split; [exact Hbak|exact Hcue].
Defined.

(** C7 as stated fails: the removal of the CUE file raises, so the run
    fails, and the backup created in this run has already been
    deleted. *)
Lemma failed_run_without_backup :
  process_files sample_lib cue_removal_fails "a.mp3.cue" "a.mp3" sample_world
  = (false,
     World {[ "a.mp3" := "ID3AUDIO"; "a.mp3.cue" := sample_cue ]}
           [ FoundChapters 2; BackupCreated "a.mp3.bak"; ChaptersEmbedded;
             BackupDeleted "a.mp3.bak"; ErrorDuringProcessing OSError ]).
Proof. vm_compute. reflexivity. Qed.

End Files.

(** * Further properties of the program *)

Example sample_folder_run :
  process_folder sample_lib (fun _ => no_fault) (Ok sample_names) "music" sample_folder
  = (Ok [ Processing "music/a.mp3" "music/a.mp3.cue"; NoCueFile "music/b.MP3" ],
     World {[ "music/a.mp3" := "ID3AUDIO"; "music/b.MP3" := "OTHER";
              "music/notes.txt" := "text" ]}
           [ FoundChapters 2; BackupCreated "music/a.mp3.bak"; ChaptersEmbedded;
             BackupDeleted "music/a.mp3.bak"; CueDeleted "music/a.mp3.cue" ]).
Proof. vm_compute. reflexivity. Qed.

(** ** What [embed_chapters] writes *)

Section EmbedEffects.

Implicit Types (w : world) (lib : mutagen) (flt : faults).

Lemma copy_file_other o src dst w r w' p :
  copy_file o src dst w = (r, w') -> p <> dst -> files w' !! p = files w !! p.
Proof.
  unfold copy_file. intros H Hp.
  destruct (files w !! src); [|by injection H as <- <-].
  destruct o as [|e [n|]]; injection H as <- <-; simpl; try done;
    by rewrite lookup_insert_ne.
Qed.

Lemma save_other lib o tags path w r w' p :
  save lib o tags path w = (r, w') -> p <> path -> files w' !! p = files w !! p.
Proof.
  unfold save. intros H Hp.
  destruct o as [|e [remains|]]; injection H as <- <-; simpl; try done;
    by rewrite lookup_insert_ne.
Qed.

Lemma create_backup_other flt mp3_path backup_file w p :
  p <> backup_file ->
  files (create_backup flt mp3_path backup_file w) !! p = files w !! p.
Proof.
  unfold create_backup. intros Hp.
  destruct (exists_ backup_file w); [done|].
  destruct (copy_file _ _ _ w) as [[[]|e] w'] eqn:E; simpl;
    by eapply copy_file_other.
Qed.

Lemma create_backup_existing flt mp3_path backup_file w :
  is_Some (files w !! backup_file) ->
  create_backup flt mp3_path backup_file w = w.
Proof.
  intros [data H]. unfold create_backup.
  by rewrite (bool_decide_eq_true_2 _ (ex_intro _ data H) : exists_ backup_file w = true).
Qed.

Lemma save_or_restore_other lib flt tags mp3_path backup_file w r w' p :
  save_or_restore lib flt tags mp3_path backup_file w = (r, w') ->
  p <> mp3_path -> files w' !! p = files w !! p.
Proof.
  unfold save_or_restore. intros H Hp.
  destruct (save lib _ tags mp3_path w) as [[[]|e] w1] eqn:E.
  - injection H as <- <-. simpl. by eapply save_other.
  - pose proof (save_other _ _ _ _ _ _ _ p E Hp) as Hp1.
    destruct (copy_file _ backup_file mp3_path _) as [[[]|e'] w2] eqn:E2;
      injection H as <- <-; simpl;
      rewrite (copy_file_other _ _ _ _ _ _ p E2 Hp); exact Hp1.
Qed.

Lemma embed_chapters_frame_core lib flt (mp3_path : string) (chs : list seed)
    w r w' (p : string) :
  embed_chapters lib flt mp3_path chs w = (r, w') ->
  p <> mp3_path -> p <> (mp3_path ++ ".bak")%string ->
  files w' !! p = files w !! p.
Proof.
  unfold embed_chapters. intros H Hmp3 Hbak.
  destruct (prepare_tags lib mp3_path chs w) as [tags|e]; [|by injection H as <- <-].
  destruct (save_or_restore _ _ _ _ _ _) as [[[]|e] w1] eqn:E;
    injection H as <- <-;
    rewrite (save_or_restore_other _ _ _ _ _ _ _ _ p E Hmp3);
    by apply create_backup_other.
Qed.

(** X1.  [embed_chapters] writes to the MP3 file and to its backup path
    and to nothing else: every other file is as it was, whatever the
    outcome. *)
Theorem embed_chapters_frame lib flt (mp3_path : string) (chs : list seed)
    w r w' (p : string) :
  embed_chapters lib flt mp3_path chs w = (r, w') ->
  p <> mp3_path -> p <> (mp3_path ++ ".bak")%string ->
  files w' !! p = files w !! p.
Proof. apply embed_chapters_frame_core. Qed.

Lemma embed_chapters_frame_witness :
  files (snd (embed_chapters sample_lib save_and_restore_fail "a.mp3"
                sample_chapters sample_world)) !! "a.mp3.cue"
  = Some sample_cue.
Proof.
  rewrite (embed_chapters_frame sample_lib save_and_restore_fail "a.mp3"
             sample_chapters sample_world _ _ "a.mp3.cue"
             (surjective_pairing _)); [reflexivity|discriminate|discriminate].
Defined.

(** X2.  A backup that exists before the run is never overwritten:
    whatever the outcome of [embed_chapters], the backup path holds what
    it held before. *)
Theorem existing_backup_untouched lib flt (mp3_path : string) (chs : list seed)
    w r w' :
  is_Some (files w !! (mp3_path ++ ".bak")%string) ->
  embed_chapters lib flt mp3_path chs w = (r, w') ->
  files w' !! (mp3_path ++ ".bak")%string = files w !! (mp3_path ++ ".bak")%string.
Proof.
  unfold embed_chapters. intros Hbak H.
  destruct (prepare_tags lib mp3_path chs w) as [tags|e]; [|by injection H as <- <-].
  rewrite (create_backup_existing _ _ _ _ Hbak) in H.
  destruct (save_or_restore _ _ _ _ _ _) as [[[]|e] w1] eqn:E;
    injection H as <- <-;
    apply (save_or_restore_other _ _ _ _ _ _ _ _ _ E), backup_path_fresh.
Qed.

Lemma existing_backup_untouched_witness :
  files (snd (embed_chapters sample_lib save_fails "a.mp3" sample_chapters stale_world))
    !! "a.mp3.bak" = Some "OLDER".
Proof.
  change "a.mp3.bak" with ("a.mp3" ++ ".bak")%string.
  rewrite (existing_backup_untouched sample_lib save_fails "a.mp3" sample_chapters
             stale_world _ _ (ex_intro _ "OLDER" eq_refl) (surjective_pairing _)).
  reflexivity.
Defined.

Lemma prepare_tags_raises lib (mp3_path : string) (chs : list seed) w e :
  prepare_tags lib mp3_path chs w = Raise e ->
  (on_file (read_ID3 lib) mp3_path w = Raise e /\ e <> ID3NoHeaderError) \/
  on_file (info_length lib) mp3_path w = Raise e \/
  (exists seconds, on_file (info_length lib) mp3_path w = Ok seconds /\
                   int_of_float (fmul seconds f1000) = Raise e).
Proof.
  unfold prepare_tags. intros H.
  destruct (on_file (read_ID3 lib) mp3_path w) as [tags0|e0] eqn:Eload.
  - simpl in H.
    destruct (on_file (info_length lib) mp3_path w) as [seconds|e1]; simpl in H.
    + destruct (int_of_float (fmul seconds f1000)) as [total|e2] eqn:Et; simpl in H.
      * by rewrite add_chapters_frames in H.
      * injection H as <-. right. right. by exists seconds.
    + injection H as <-. by right; left.
  - destruct e0; simpl in H;
      try (injection H as <-; left; split; [done|discriminate]).
    destruct (on_file (info_length lib) mp3_path w) as [seconds|e1]; simpl in H.
    + destruct (int_of_float (fmul seconds f1000)) as [total|e2] eqn:Et; simpl in H.
      * by rewrite add_chapters_frames in H.
      * injection H as <-. right. right. by exists seconds.
    + injection H as <-. by right; left.
Qed.

(** X3.  An exception leaves [embed_chapters] in two ways only.  Either
    reading the file failed (the tags could not be loaded, for another
    reason than a missing header, or the length could not be obtained or
    converted), and then nothing was written, not even a backup; or the
    save failed, and the exception is the one of the save.  The loop
    that builds the chapter frames never raises. *)
Theorem embed_chapters_raises lib flt (mp3_path : string) (chs : list seed) w e w' :
  embed_chapters lib flt mp3_path chs w = (Raise e, w') ->
  (w' = w /\
   ((on_file (read_ID3 lib) mp3_path w = Raise e /\ e <> ID3NoHeaderError) \/
    on_file (info_length lib) mp3_path w = Raise e \/
    (exists seconds, on_file (info_length lib) mp3_path w = Ok seconds /\
                     int_of_float (fmul seconds f1000) = Raise e))) \/
  (exists remains, save_io flt = SaveFails e remains /\
                   ErrorSavingTags e ∈ console w').
Proof.
  unfold embed_chapters. intros H.
  destruct (prepare_tags lib mp3_path chs w) as [tags|e0] eqn:Eprep.
  - right. unfold save_or_restore, save in H.
    destruct (save_io flt) as [|e1 [remains|]]; simpl in H; [discriminate| |].
    + destruct (copy_file _ _ _ _) as [[[]|e'] w2] eqn:E2;
        apply copy_file_console in E2; simpl in E2, H;
        injection H as <- <-; eexists; (split; [done|]); simpl;
        rewrite E2, !elem_of_app, !list_elem_of_singleton; auto.
    + destruct (copy_file _ _ _ _) as [[[]|e'] w2] eqn:E2;
        apply copy_file_console in E2; simpl in E2, H;
        injection H as <- <-; eexists; (split; [done|]); simpl;
        rewrite E2, !elem_of_app, !list_elem_of_singleton; auto.
  - injection H as <- <-. left. split; [done|]. by apply (prepare_tags_raises _ _ chs).
Qed.

Lemma embed_chapters_raises_witness :
  embed_chapters broken_lib no_fault "a.mp3" sample_chapters sample_world
  = (Raise MutagenError, sample_world).
Proof.
  destruct (embed_chapters broken_lib no_fault "a.mp3" sample_chapters sample_world)
    as [[b|e] w'] eqn:E.
  - exfalso. vm_compute in E. discriminate.
  - destruct (embed_chapters_raises _ _ _ _ _ _ _ E) as [[-> Hwhy]|(r & Hs & _)].
    + f_equal. destruct Hwhy as [[Hl _]|[Hp|(secs & Hp & Hi)]].
      * vm_compute in Hl. by injection Hl as <-.
      * vm_compute in Hp. discriminate.
      * vm_compute in Hp. injection Hp as <-. vm_compute in Hi. discriminate.
    + discriminate.
Defined.

(** What the copy back does when the save has failed: the MP3 file gets
    the bytes the backup path holds at that moment. *)
Lemma save_or_restore_fail lib flt (tags : ID3) (mp3_path : string) w
    (e : exn) (remains : option string) (held : string) :
  save_io flt = SaveFails e remains ->
  restore_io flt = Copied ->
  files w !! (mp3_path ++ ".bak")%string = Some held ->
  exists w',
    save_or_restore lib flt tags mp3_path (mp3_path ++ ".bak")%string w = (Raise e, w') /\
    files w' !! mp3_path = Some held /\
    files w' !! (mp3_path ++ ".bak")%string = Some held /\
    RestoredFromBackup ∈ console w'.
Proof.
  intros Hsave Hrestore Hheld.
  pose proof (backup_path_fresh mp3_path) as Hne.
  unfold save_or_restore, save. rewrite Hsave, Hrestore.
  destruct remains as [partial|]; simpl; unfold copy_file; simpl;
    rewrite ?(lookup_insert_ne _ mp3_path) by done; rewrite Hheld;
    (eexists; split; [reflexivity|]; simpl;
     split; [by rewrite lookup_insert_eq|];
     split; [by rewrite ?(lookup_insert_ne _ mp3_path) by done|];
     rewrite !elem_of_app, !list_elem_of_singleton; auto).
Qed.

Lemma embed_chapters_success_core lib flt (mp3_path : string) (chs : list seed)
    w (tags : ID3) (data : string) :
  prepare_tags lib mp3_path chs w = Ok tags ->
  files w !! mp3_path = Some data ->
  save_io flt = Saved ->
  exists w',
    embed_chapters lib flt mp3_path chs w = (Ok (mp3_path ++ ".bak")%string, w') /\
    files w' !! mp3_path = Some (render lib tags data) /\
    (files w !! (mp3_path ++ ".bak")%string = None -> backup_io flt = Copied ->
     files w' !! (mp3_path ++ ".bak")%string = Some data) /\
    ChaptersEmbedded ∈ console w'.
Proof.
  intros Hprep Hdata Hsave.
  pose proof (backup_path_fresh mp3_path) as Hne.
  unfold embed_chapters. rewrite Hprep.
  set (w2 := create_backup flt mp3_path (mp3_path ++ ".bak")%string w).
  assert (Hdata2 : files w2 !! mp3_path = Some data).
  { unfold w2. by rewrite create_backup_other. }
  unfold save_or_restore, save. rewrite Hsave. simpl.
  eexists. split; [reflexivity|]. simpl.
  split; [by rewrite lookup_insert_eq, Hdata2|]. split.
  - intros Hbak Hcopy. rewrite lookup_insert_ne by done.
    unfold w2, create_backup. rewrite (exists_false _ _ Hbak).
    unfold copy_file. rewrite Hdata, Hcopy. simpl. by rewrite lookup_insert_eq.
  - rewrite elem_of_app, list_elem_of_singleton. by right.
Qed.

(** X4.  When the tags can be prepared and the save succeeds,
    [embed_chapters] returns the backup path, the MP3 file holds what the
    library renders from the new container and the old bytes, and a
    backup created in this run holds the old bytes. *)
Theorem embed_chapters_success lib flt (mp3_path : string) (chs : list seed)
    w (tags : ID3) (data : string) :
  prepare_tags lib mp3_path chs w = Ok tags ->
  files w !! mp3_path = Some data ->
  save_io flt = Saved ->
  exists w',
    embed_chapters lib flt mp3_path chs w = (Ok (mp3_path ++ ".bak")%string, w') /\
    files w' !! mp3_path = Some (render lib tags data) /\
    (files w !! (mp3_path ++ ".bak")%string = None -> backup_io flt = Copied ->
     files w' !! (mp3_path ++ ".bak")%string = Some data) /\
    ChaptersEmbedded ∈ console w'.
Proof. apply embed_chapters_success_core. Qed.

Lemma embed_chapters_success_witness :
  exists w',
    embed_chapters sample_lib no_fault "a.mp3" sample_chapters sample_world
      = (Ok "a.mp3.bak", w') /\
    files w' !! "a.mp3" = Some "ID3AUDIO" /\
    files w' !! "a.mp3.bak" = Some "AUDIO".
Proof.
  destruct (embed_chapters_success sample_lib no_fault "a.mp3" sample_chapters
              sample_world sample_tags "AUDIO" sample_prepare eq_refl eq_refl)
    as (w' & Hrun & Hmp3 & Hbak & _).
  exists w'. split; [exact Hrun|]. split; [exact Hmp3|]. exact (Hbak eq_refl eq_refl).
Defined.

(** X5.  When a backup of an earlier run exists and the save fails, the
    copy back puts the bytes of that older backup into the MP3 file, not
    the bytes the file had before this run. *)
Theorem stale_backup_restored lib flt (mp3_path : string) (chs : list seed)
    w (tags : ID3) (older : string) (e : exn) (remains : option string) :
  prepare_tags lib mp3_path chs w = Ok tags ->
  files w !! (mp3_path ++ ".bak")%string = Some older ->
  save_io flt = SaveFails e remains ->
  restore_io flt = Copied ->
  exists w',
    embed_chapters lib flt mp3_path chs w = (Raise e, w') /\
    files w' !! mp3_path = Some older /\
    files w' !! (mp3_path ++ ".bak")%string = Some older.
Proof.
  intros Hprep Hold Hsave Hrestore.
  unfold embed_chapters. rewrite Hprep.
  rewrite (create_backup_existing _ _ _ _ (ex_intro _ older Hold)).
  destruct (save_or_restore_fail lib flt tags mp3_path w e remains older
              Hsave Hrestore Hold) as (w' & -> & Hmp3 & Hbak & _).
  by exists w'.
Qed.

Lemma stale_backup_restored_witness :
  exists w',
    embed_chapters sample_lib save_fails "a.mp3" sample_chapters stale_world
      = (Raise OSError, w') /\
    files w' !! "a.mp3" = Some "OLDER" /\
    files stale_world !! "a.mp3" = Some "AUDIO".
Proof.
  assert (Hprep : prepare_tags sample_lib "a.mp3" sample_chapters stale_world
                  = Ok sample_tags) by (vm_compute; reflexivity).
  destruct (stale_backup_restored sample_lib save_fails "a.mp3" sample_chapters
              stale_world sample_tags "OLDER" OSError (Some "ID3AU")
              Hprep eq_refl eq_refl eq_refl) as (w' & Hrun & Hmp3 & _).
  exists w'. split; [exact Hrun|]. split; [exact Hmp3|reflexivity].
Defined.

(** X6.  When the backup copy fails after it has opened the backup file
    and written [n] bytes, and the save then fails, the copy back puts
    the truncated backup, the first [n] bytes of the original, into the
    MP3 file. *)
Theorem partial_backup_restored lib flt (mp3_path : string) (chs : list seed)
    w (tags : ID3) (data : string) (n : nat) (e1 e : exn)
    (remains : option string) :
  prepare_tags lib mp3_path chs w = Ok tags ->
  files w !! mp3_path = Some data ->
  files w !! (mp3_path ++ ".bak")%string = None ->
  backup_io flt = CopyFails e1 (Some n) ->
  save_io flt = SaveFails e remains ->
  restore_io flt = Copied ->
  exists w',
    embed_chapters lib flt mp3_path chs w = (Raise e, w') /\
    files w' !! mp3_path = Some (String.substring 0 n data) /\
    ErrorCreatingBackup e1 ∈ console w'.
Proof.
  intros Hprep Hdata Hbak Hbackup Hsave Hrestore.
  unfold embed_chapters. rewrite Hprep.
  unfold create_backup. rewrite (exists_false _ _ Hbak).
  unfold copy_file at 1. rewrite Hdata, Hbackup.
  set (w2 := print _ _).
  assert (Hheld : files w2 !! (mp3_path ++ ".bak")%string
                  = Some (String.substring 0 n data))
    by (unfold w2; simpl; by rewrite lookup_insert_eq).
  destruct (save_or_restore_outcome lib flt tags mp3_path (mp3_path ++ ".bak")%string w2)
    as (r & w3 & Hsr & _ & Hcons & _).
  destruct (save_or_restore_fail lib flt tags mp3_path w2 e remains _
              Hsave Hrestore Hheld) as (w' & Hrun & Hmp3 & _ & _).
  rewrite Hrun in Hsr. injection Hsr as <- <-.
  rewrite Hrun. exists w'. split; [done|]. split; [done|].
  apply Hcons. unfold w2. simpl. rewrite elem_of_app, list_elem_of_singleton. by right.
Qed.

Lemma partial_backup_restored_witness :
  exists w',
    embed_chapters sample_lib partial_backup "a.mp3" sample_chapters sample_world
      = (Raise OSError, w') /\
    files w' !! "a.mp3" = Some "AU".
Proof.
  destruct (partial_backup_restored sample_lib partial_backup "a.mp3" sample_chapters
              sample_world sample_tags "AUDIO" 2 OSError OSError (Some "ID3AU")
              sample_prepare eq_refl eq_refl eq_refl eq_refl eq_refl)
    as (w' & Hrun & Hmp3 & _).
  exists w'. split; [exact Hrun|exact Hmp3].
Defined.

End EmbedEffects.

(** ** [process_files] as a whole *)

Section ProcessFiles.

Implicit Types (w : world) (lib : mutagen) (flt : faults).

Lemma embed_chapters_ok_iff lib flt (mp3_path : string) (chs : list seed) w :
  (exists b w', embed_chapters lib flt mp3_path chs w = (Ok b, w')) <->
  (exists tags, prepare_tags lib mp3_path chs w = Ok tags) /\ save_io flt = Saved.
Proof.
  unfold embed_chapters. split.
  - intros (b & w' & H).
    destruct (prepare_tags lib mp3_path chs w) as [tags|e]; [|discriminate].
    split; [by eexists|].
    destruct (save_or_restore_outcome lib flt tags mp3_path (mp3_path ++ ".bak")%string
                (create_backup flt mp3_path (mp3_path ++ ".bak")%string w))
      as (r & w3 & Hsr & Hr & _).
    rewrite Hsr in H. destruct r as [[]|e]; [|discriminate].
    simpl in Hr. by destruct (save_io flt).
  - intros [[tags ->] Hsave].
    destruct (save_or_restore_outcome lib flt tags mp3_path (mp3_path ++ ".bak")%string
                (create_backup flt mp3_path (mp3_path ++ ".bak")%string w))
      as (r & w3 & Hsr & Hr & _).
    rewrite Hsr. rewrite Hsave in Hr. destruct r as [[]|e]; [|discriminate].
    by eexists _, _.
Qed.

Lemma prepare_tags_exists lib (mp3_path : string) (chs : list seed) w (tags : ID3) :
  prepare_tags lib mp3_path chs w = Ok tags -> is_Some (files w !! mp3_path).
Proof.
  unfold prepare_tags, on_file. intros H.
  destruct (files w !! mp3_path); [by eexists|discriminate].
Qed.

(** Whether the backup path holds a file when [embed_chapters]
    returns. *)
Lemma embed_chapters_backup_left lib flt (mp3_path : string) (chs : list seed)
    w b w' :
  embed_chapters lib flt mp3_path chs w = (Ok b, w') ->
  exists_ (mp3_path ++ ".bak")%string w' = backup_left flt mp3_path w.
Proof.
  intros Hembed.
  pose proof (backup_path_fresh mp3_path) as Hne.
  unfold embed_chapters in Hembed.
  destruct (prepare_tags lib mp3_path chs w) as [tags|e] eqn:Hprep; [|discriminate].
  destruct (prepare_tags_exists _ _ _ _ _ Hprep) as [data Hdata].
  destruct (save_or_restore _ _ _ _ _ _) as [[[]|e] w1] eqn:E; [|discriminate].
  injection Hembed as _ <-.
  unfold exists_ at 1.
  rewrite (save_or_restore_other _ _ _ _ _ _ _ _ _ E Hne).
  unfold backup_left, create_backup.
  destruct (exists_ (mp3_path ++ ".bak")%string w) eqn:Ex; [exact Ex|].
  unfold copy_file. rewrite Hdata.
  destruct (backup_io flt) as [|e' [n|]]; simpl.
  - apply bool_decide_eq_true. rewrite lookup_insert_eq. by eexists.
  - apply bool_decide_eq_true. rewrite lookup_insert_eq. by eexists.
  - exact Ex.
Qed.

(** The CUE file is still there when its removal is due, unless it is
    the backup path itself. *)
Lemma cue_left lib flt (cue_path mp3_path : string) (chs : list seed) w r w' :
  embed_chapters lib flt mp3_path chs w = (r, w') ->
  is_Some (files w !! cue_path) ->
  exists_ cue_path (remove (mp3_path ++ ".bak")%string w')
  = bool_decide (cue_path <> (mp3_path ++ ".bak")%string).
Proof.
  intros Hembed Hcue. unfold exists_. simpl.
  destruct (decide (cue_path = (mp3_path ++ ".bak")%string)) as [->|Hne].
  - rewrite lookup_delete_eq.
    rewrite bool_decide_eq_false_2 by (intros H; by apply is_Some_None in H).
    symmetry. apply bool_decide_eq_false_2. tauto.
  - rewrite lookup_delete_ne by done.
    rewrite bool_decide_eq_true_2 by (by eapply embed_chapters_keeps).
    symmetry. by apply bool_decide_eq_true_2.
Qed.

Lemma process_files_success_iff_core lib flt (cue_path mp3_path : string) w :
  fst (process_files lib flt cue_path mp3_path w) = true <->
  exists chs w0 tags,
    parse_cue_file cue_path w = (Ok chs, w0) /\ chs <> [] /\
    prepare_tags lib mp3_path chs (print (FoundChapters (length chs)) w0) = Ok tags /\
    save_io flt = Saved /\
    (backup_left flt mp3_path w = true -> remove_backup_io flt = None) /\
    (cue_path <> (mp3_path ++ ".bak")%string -> remove_cue_io flt = None).
Proof.
  assert (Hrem : forall chs w0 b w1,
            parse_cue_file cue_path w = (Ok chs, w0) -> chs <> [] ->
            embed_chapters lib flt mp3_path chs (print (FoundChapters (length chs)) w0)
              = (Ok b, w1) ->
            fst (process_files lib flt cue_path mp3_path w)
            = (negb (backup_left flt mp3_path w) || removes (remove_backup_io flt))
              && (negb (bool_decide (cue_path <> (mp3_path ++ ".bak")%string))
                  || removes (remove_cue_io flt))).
  { intros chs w0 b w1 Hparse Hchs Hembed.
    destruct (process_files_removals lib flt cue_path mp3_path w chs w0 b w1
                Hparse Hchs Hembed) as (w' & -> & _).
    cbn [fst].
    rewrite (embed_chapters_backup_left _ _ _ _ _ _ _ Hembed).
    rewrite (cue_left _ _ cue_path _ _ _ _ _ Hembed).
    - unfold backup_left, exists_. simpl.
      by rewrite (parse_cue_file_files _ _ _ _ Hparse).
    - simpl. rewrite (parse_cue_file_files _ _ _ _ Hparse).
      by eapply parse_cue_file_exists. }
  split.
  - intros Hok.
    destruct (parse_cue_file cue_path w) as [[chs|e] w0] eqn:Hparse.
    2:{ unfold process_files in Hok. rewrite Hparse in Hok. discriminate. }
    destruct chs as [|sd chs].
    { unfold process_files in Hok. rewrite Hparse in Hok. discriminate. }
    set (w1 := print (FoundChapters (length (sd :: chs))) w0).
    destruct (embed_chapters lib flt mp3_path (sd :: chs) w1) as [[b|e] w2] eqn:Hembed.
    2:{ unfold process_files in Hok. rewrite Hparse in Hok. fold w1 in Hok.
        rewrite Hembed in Hok. discriminate. }
    rewrite (Hrem _ _ _ _ eq_refl ltac:(done) Hembed) in Hok.
    apply andb_prop in Hok as [Hb Hc].
    destruct (proj1 (embed_chapters_ok_iff lib flt mp3_path (sd :: chs) w1))
      as [[tags Htags] Hsave]; [by eexists _, _|].
    exists (sd :: chs), w0, tags.
    split; [done|]. split; [done|]. split; [done|]. split; [done|]. split.
    + intros Hleft. rewrite Hleft in Hb. simpl in Hb.
      by destruct (remove_backup_io flt).
    + intros Hne. rewrite (bool_decide_eq_true_2 _ Hne) in Hc. simpl in Hc.
      by destruct (remove_cue_io flt).
  - intros (chs & w0 & tags & Hparse & Hchs & Htags & Hsave & Hb & Hc).
    destruct (proj2 (embed_chapters_ok_iff lib flt mp3_path chs
                       (print (FoundChapters (length chs)) w0)))
      as (b & w1 & Hembed); [split; [by eexists|done]|].
    rewrite (Hrem _ _ _ _ Hparse Hchs Hembed).
    apply andb_true_intro. split.
    + destruct (backup_left flt mp3_path w); [|done]. by rewrite Hb.
    + case_bool_decide as Hne; [|done]. by rewrite Hc.
Qed.

(** X7.  [process_files] reports success exactly when the CUE file gave
    at least one chapter, the tags and the length of the MP3 file could
    be read, the save succeeded and neither removal raised: that of the
    backup, due when the backup path holds a file after the save, and
    that of the CUE file, due unless the CUE file is that backup.  A
    backup that could not be created and chapters dropped by the parser
    play no part. *)
Theorem process_files_success_iff lib flt (cue_path mp3_path : string) w :
  fst (process_files lib flt cue_path mp3_path w) = true <->
  exists chs w0 tags,
    parse_cue_file cue_path w = (Ok chs, w0) /\ chs <> [] /\
    prepare_tags lib mp3_path chs (print (FoundChapters (length chs)) w0) = Ok tags /\
    save_io flt = Saved /\
    (backup_left flt mp3_path w = true -> remove_backup_io flt = None) /\
    (cue_path <> (mp3_path ++ ".bak")%string -> remove_cue_io flt = None).
Proof. apply process_files_success_iff_core. Qed.

Lemma process_files_success_iff_witness :
  fst (process_files sample_lib backup_fails "a.mp3.cue" "a.mp3" sample_world) = true.
Proof.
  apply (proj2 (process_files_success_iff sample_lib backup_fails "a.mp3.cue" "a.mp3"
                  sample_world)).
  exists sample_chapters, sample_world, sample_tags.
  split; [exact sample_parse|]. split; [discriminate|].
  split; [exact sample_prepare_found|]. split; [reflexivity|].
  split; reflexivity.
Defined.

(** The files [embed_chapters] leaves when it returns, up to the backup
    path. *)
Lemma embed_chapters_ok_files lib flt (mp3_path : string) (chs : list seed)
    w b w' (tags : ID3) (data : string) :
  embed_chapters lib flt mp3_path chs w = (Ok b, w') ->
  prepare_tags lib mp3_path chs w = Ok tags ->
  files w !! mp3_path = Some data ->
  delete (mp3_path ++ ".bak")%string (files w')
  = delete (mp3_path ++ ".bak")%string (<[mp3_path := render lib tags data]> (files w)).
Proof.
  intros Hembed Hprep Hdata.
  pose proof (backup_path_fresh mp3_path) as Hne.
  assert (Hsave : save_io flt = Saved).
  { apply (embed_chapters_ok_iff lib flt mp3_path chs w). by eexists _, _. }
  destruct (embed_chapters_success_core lib flt mp3_path chs w tags data Hprep Hdata Hsave)
    as (w'' & Hrun & Hmp3 & _).
  rewrite Hrun in Hembed. injection Hembed as <- <-.
  apply map_eq. intros p.
  destruct (decide (p = (mp3_path ++ ".bak")%string)) as [->|Hp];
    [by rewrite !lookup_delete_eq|].
  rewrite !lookup_delete_ne by done.
  destruct (decide (p = mp3_path)) as [->|Hp'].
  - by rewrite Hmp3, lookup_insert_eq.
  - rewrite lookup_insert_ne by done.
    by apply (embed_chapters_frame_core lib flt mp3_path chs w _ _ p Hrun).
Qed.

(** X8.  When the save succeeds and neither removal raises, the run
    succeeds and the files are those of before, with the MP3 file
    replaced by the rendered one and with the CUE file and the backup
    path removed: also a backup that was there before the run is
    gone. *)
Theorem process_files_success_files lib flt (cue_path mp3_path : string) w
    (chs : list seed) w0 (tags : ID3) (data : string) :
  parse_cue_file cue_path w = (Ok chs, w0) ->
  chs <> [] ->
  prepare_tags lib mp3_path chs (print (FoundChapters (length chs)) w0) = Ok tags ->
  files w !! mp3_path = Some data ->
  save_io flt = Saved ->
  remove_backup_io flt = None ->
  remove_cue_io flt = None ->
  exists w',
    process_files lib flt cue_path mp3_path w = (true, w') /\
    files w' = delete cue_path
                 (delete (mp3_path ++ ".bak")%string
                    (<[mp3_path := render lib tags data]> (files w))).
Proof.
  intros Hparse Hchs Hprep Hdata Hsave Hrb Hrc.
  pose proof (parse_cue_file_files _ _ _ _ Hparse) as Hfiles.
  set (w1 := print (FoundChapters (length chs)) w0) in *.
  assert (Hdata1 : files w1 !! mp3_path = Some data) by (simpl; by rewrite Hfiles).
  destruct (embed_chapters_success_core lib flt mp3_path chs w1 tags data Hprep Hdata1 Hsave)
    as (w2 & Hrun & _).
  pose proof (embed_chapters_ok_files _ _ _ _ _ _ _ _ _ Hrun Hprep Hdata1) as Hdel.
  destruct (process_files_removals lib flt cue_path mp3_path w chs w0 _ w2
              Hparse Hchs Hrun) as (w' & Hpf & Hf & _).
  rewrite Hrb, Hrc in Hpf, Hf. simpl in Hpf, Hf.
  rewrite !orb_true_r in Hpf, Hf. simpl in Hpf, Hf.
  exists w'. split; [done|].
  rewrite Hf, Hdel. simpl. by rewrite Hfiles.
Qed.

Lemma process_files_success_files_witness :
  exists w',
    process_files sample_lib no_fault "a.mp3.cue" "a.mp3" stale_world = (true, w') /\
    files w' !! "a.mp3.bak" = None /\ files w' !! "a.mp3" = Some "ID3AUDIO".
Proof.
  assert (Hparse : parse_cue_file "a.mp3.cue" stale_world = (Ok sample_chapters, stale_world))
    by (vm_compute; reflexivity).
  assert (Hprep : prepare_tags sample_lib "a.mp3" sample_chapters
                    (print (FoundChapters (length sample_chapters)) stale_world)
                  = Ok sample_tags) by (vm_compute; reflexivity).
  destruct (process_files_success_files sample_lib no_fault "a.mp3.cue" "a.mp3"
              stale_world sample_chapters stale_world sample_tags "AUDIO"
              Hparse ltac:(discriminate) Hprep eq_refl eq_refl eq_refl eq_refl)
    as (w' & Hrun & Hfiles).
  exists w'. split; [exact Hrun|]. rewrite Hfiles. split; vm_compute; reflexivity.
Defined.

Lemma fold_pick_absent {A B} (f : B -> option A) (l : list B) (old : option A) :
  existsb (fun x => bool_decide (is_Some (f x))) l = false ->
  foldl (fun acc x => pick acc (f x)) old l = old.
Proof.
  revert old. induction l as [|x l IH]; intros old H; simpl in *; [done|].
  apply orb_false_elim in H as [Hx H]. apply bool_decide_eq_false in Hx.
  rewrite IH by done. destruct (f x); [|done]. exfalso. apply Hx. by eexists.
Qed.

Lemma incomplete_block_seed (b : block) :
  is_block b = true -> complete_block b = false -> block_seed (snd b) = None.
Proof.
  unfold complete_block, block_seed, body_title, body_time. intros -> H. simpl in H.
  apply andb_false_iff in H as [H|H]; rewrite (fold_pick_absent _ _ _ H); [done|].
  by destruct (foldl _ _ _).
Qed.

Lemma incomplete_blocks_seeds (blocks : list block) :
  forallb is_block blocks = true ->
  forallb (fun b => negb (complete_block b)) blocks = true ->
  omap (fun b => block_seed (snd b)) blocks = [].
Proof.
  induction blocks as [|b blocks IH]; simpl; [done|].
  intros [Hb Hbs]%andb_prop [Hc Hcs]%andb_prop.
  apply negb_true_iff in Hc.
  rewrite (incomplete_block_seed b Hb Hc). by apply IH.
Qed.

(** X10.  A CUE file without a complete TRACK block (and without a
    complete run of leading lines) makes [process_files] fail with "no
    chapters" before it looks at the MP3 file: no file is created,
    changed or deleted. *)
Theorem no_chapters_no_change lib flt (cue_path mp3_path : string) w (data : string) :
  files w !! cue_path = Some data ->
  all_chars cp1252_defined data = true ->
  block_seed (leading (readlines data)) = None ->
  forallb (fun b => negb (complete_block b)) (blocks_of (readlines data)) = true ->
  exists w',
    process_files lib flt cue_path mp3_path w = (false, w') /\
    files w' = files w /\
    ErrorDuringProcessing ValueError ∈ console w'.
Proof.
  intros Hdata Hdec Hpre Hblocks.
  assert (Hparse : exists errs, parse_cue_text data = Ok ([], errs)).
  { unfold parse_cue_text, decode_cp1252. rewrite Hdec. simpl.
    destruct (parse_cue_lines_blocks (readlines data)) as [errs ->].
    rewrite Hpre, incomplete_blocks_seeds;
      [by eexists|apply split_blocks_shape|done]. }
  destruct Hparse as [errs Hparse].
  unfold process_files, parse_cue_file. rewrite Hdata, Hparse.
  eexists. split; [reflexivity|]. split; [done|].
  simpl. rewrite elem_of_app, list_elem_of_singleton. by right.
Qed.

Lemma no_chapters_no_change_witness :
  exists w',
    process_files sample_lib no_fault "a.mp3.cue" "a.mp3" no_index_world = (false, w') /\
    files w' = files no_index_world.
Proof.
  destruct (no_chapters_no_change sample_lib no_fault "a.mp3.cue" "a.mp3"
              no_index_world no_index_cue eq_refl)
    as (w' & Hrun & Hfiles & _); try (vm_compute; reflexivity).
  exists w'. split; [exact Hrun|exact Hfiles].
Defined.

(** X11.  The two definitions of [process_files] in the module: the
    second, which is in force, succeeds only when the first does; when
    the first fails both leave the same world; when the first succeeds
    and neither removal raises, the second succeeds too and differs
    from the first only in having removed the backup path and the CUE
    file. *)
Theorem process_files_definitions lib flt (cue_path mp3_path : string) w :
  (fst (process_files lib flt cue_path mp3_path w) = true ->
   fst (process_files_first lib flt cue_path mp3_path w) = true) /\
  (fst (process_files_first lib flt cue_path mp3_path w) = false ->
   process_files lib flt cue_path mp3_path w
   = process_files_first lib flt cue_path mp3_path w) /\
  (fst (process_files_first lib flt cue_path mp3_path w) = true ->
   remove_backup_io flt = None -> remove_cue_io flt = None ->
   fst (process_files lib flt cue_path mp3_path w) = true /\
   files (snd (process_files lib flt cue_path mp3_path w))
   = delete cue_path
       (delete (mp3_path ++ ".bak")%string
          (files (snd (process_files_first lib flt cue_path mp3_path w))))).
Proof.
  destruct (parse_cue_file cue_path w) as [[chs|e] w0] eqn:Hparse.
  2:{ unfold process_files, process_files_first. rewrite Hparse. done. }
  destruct chs as [|sd chs].
  { unfold process_files, process_files_first. rewrite Hparse. done. }
  destruct (embed_chapters lib flt mp3_path (sd :: chs)
              (print (FoundChapters (length (sd :: chs))) w0))
    as [[b|e] w2] eqn:Hembed.
  2:{ unfold process_files, process_files_first. rewrite Hparse, Hembed. done. }
  destruct (process_files_removals lib flt cue_path mp3_path w (sd :: chs) w0 _ w2
              Hparse ltac:(done) Hembed) as (w' & Hpf & Hf & _).
  assert (Hfirst : process_files_first lib flt cue_path mp3_path w = (true, w2)).
  { unfold process_files_first. by rewrite Hparse, Hembed. }
  rewrite Hfirst, Hpf. cbn [fst snd].
  split; [done|]. split; [discriminate|].
  intros _ Hrb Hrc. rewrite Hrb, Hrc in Hf |- *. simpl in Hf |- *.
  rewrite !orb_true_r in Hf |- *. by split.
Qed.

Lemma process_files_definitions_witness :
  files (snd (process_files sample_lib no_fault "a.mp3.cue" "a.mp3" sample_world))
  = delete "a.mp3.cue"
      (delete "a.mp3.bak"
         (files (snd (process_files_first sample_lib no_fault "a.mp3.cue" "a.mp3"
                        sample_world)))).
Proof.
  apply (proj2 (proj2 (process_files_definitions sample_lib no_fault "a.mp3.cue" "a.mp3"
                         sample_world))).
  - vm_compute. reflexivity.
  - reflexivity.
  - reflexivity.
Defined.

Lemma process_files_frame_core lib flt (cue_path mp3_path : string) w (p : string) :
  p <> cue_path -> p <> mp3_path -> p <> (mp3_path ++ ".bak")%string ->
  files (snd (process_files lib flt cue_path mp3_path w)) !! p = files w !! p.
Proof.
  intros Hcue Hmp3 Hbak.
  destruct (parse_cue_file cue_path w) as [[chs|e] w0] eqn:Hparse;
    pose proof (parse_cue_file_files _ _ _ _ Hparse) as Hfiles.
  2:{ unfold process_files. rewrite Hparse. simpl. by rewrite Hfiles. }
  destruct chs as [|sd chs].
  { unfold process_files. rewrite Hparse. simpl. by rewrite Hfiles. }
  destruct (embed_chapters lib flt mp3_path (sd :: chs)
              (print (FoundChapters (length (sd :: chs))) w0))
    as [[b|e] w2] eqn:Hembed.
  - destruct (process_files_removals lib flt cue_path mp3_path w (sd :: chs) w0 _ w2
                Hparse ltac:(done) Hembed) as (w' & -> & Hf & _).
    cbn [snd]. rewrite Hf.
    assert (Hp : files w2 !! p = files w !! p).
    { rewrite (embed_chapters_frame_core _ _ _ _ _ _ _ p Hembed Hmp3 Hbak).
      simpl. by rewrite Hfiles. }
    repeat match goal with |- context [if ?c then _ else _] => destruct c end;
      by rewrite ?lookup_delete_ne by done.
  - unfold process_files. rewrite Hparse, Hembed. simpl.
    rewrite (embed_chapters_frame_core _ _ _ _ _ _ _ p Hembed Hmp3 Hbak).
    simpl. by rewrite Hfiles.
Qed.

(** X12.  [process_files] touches three paths only, the CUE file, the
    MP3 file and the backup path of the MP3 file. *)
Theorem process_files_frame lib flt (cue_path mp3_path : string) w (p : string) :
  p <> cue_path -> p <> mp3_path -> p <> (mp3_path ++ ".bak")%string ->
  files (snd (process_files lib flt cue_path mp3_path w)) !! p = files w !! p.
Proof. apply process_files_frame_core. Qed.

Lemma process_files_frame_witness :
  files (snd (process_files sample_lib no_fault "music/a.mp3.cue" "music/a.mp3"
                sample_folder)) !! "music/b.MP3" = Some "OTHER".
Proof.
  rewrite (process_files_frame sample_lib no_fault "music/a.mp3.cue" "music/a.mp3"
             sample_folder "music/b.MP3"); [reflexivity|discriminate..].
Defined.

End ProcessFiles.

(** ** [process_folder] *)

Section Folder.

Implicit Types (w : world) (lib : mutagen) (flts : string -> faults).

Lemma folder_loop_log lib flts (folder_path : string) (names : list string)
    (any : bool) (log : list folder_message) w any' log' w' :
  folder_loop lib flts folder_path names any log w = (any', log', w') ->
  exists more,
    log' = (log ++ more)%list /\
    omap message_mp3 more
      = path_join folder_path <$> List.filter is_mp3_name names /\
    any' = any || existsb is_processing more /\
    forallb (fun msg => bool_decide (is_Some (message_mp3 msg))) more = true.
Proof.
  revert any log w. induction names as [|n names IH]; intros any log w H.
  - injection H as <- <- <-. exists []. by rewrite app_nil_r, orb_false_r.
  - cbn [folder_loop List.filter] in *. fold (is_mp3_name n) in H.
    destruct (is_mp3_name n) eqn:En.
    + destruct (exists_ _ w).
      * destruct (process_files _ _ _ _ w) as [ok w1].
        apply IH in H as (more & -> & Hmp3 & -> & Hall).
        exists (Processing (path_join folder_path n)
                           (path_join folder_path n ++ ".cue") :: more).
        rewrite <- app_assoc. split; [done|].
        split; [|split; [by rewrite orb_true_r|done]].
        rewrite fmap_cons, <- Hmp3. reflexivity.
      * apply IH in H as (more & -> & Hmp3 & -> & Hall).
        exists (NoCueFile (path_join folder_path n) :: more).
        rewrite <- app_assoc. split; [done|].
        split; [|split; [done|done]].
        rewrite fmap_cons, <- Hmp3. reflexivity.
    + by apply IH in H.
Qed.

(** X13.  [process_folder] reports every name that ends in ".mp3",
    whatever the case of the letters, exactly once and in the order of
    the listing, either as processed or as lacking its CUE file; names
    that do not end in ".mp3" are passed over in silence; and "no
    suitable pairs" is printed exactly when no pair was processed. *)
Theorem process_folder_messages lib flts (folder_path : string)
    (names : list string) w (log : list folder_message) w' :
  process_folder lib flts (Ok names) folder_path w = (Ok log, w') ->
  omap message_mp3 log = path_join folder_path <$> List.filter is_mp3_name names /\
  (NoSuitablePairs ∈ log <-> existsb is_processing log = false).
Proof.
  unfold process_folder.
  destruct (folder_loop _ _ _ _ _ _ _) as [[any log0] w0] eqn:Hloop.
  intros H. simpl in H. injection H as <- <-.
  apply folder_loop_log in Hloop as (more & -> & Hmp3 & -> & Hall). simpl.
  assert (Hno : NoSuitablePairs ∉ more).
  { intros Hin. rewrite forallb_forall in Hall.
    apply list_elem_of_In, Hall, bool_decide_eq_true in Hin. by destruct Hin. }
  destruct (existsb is_processing more) eqn:Eany; simpl.
  - split; [done|]. rewrite Eany. split; [by intros ?|discriminate].
  - rewrite omap_app. simpl. rewrite app_nil_r. split; [done|].
    rewrite existsb_app, Eany. simpl. split; [done|].
    intros _. apply elem_of_app. right. by apply list_elem_of_singleton.
Qed.

Lemma process_folder_messages_witness :
  exists log w',
    process_folder sample_lib (fun _ => no_fault) (Ok sample_names) "music" sample_folder
      = (Ok log, w') /\
    omap message_mp3 log = [ "music/a.mp3"; "music/b.MP3" ].
Proof.
  destruct (process_folder sample_lib (fun _ => no_fault) (Ok sample_names) "music"
              sample_folder) as [[log|e] w'] eqn:E.
  - exists log, w'. split; [reflexivity|].
    rewrite (proj1 (process_folder_messages _ _ _ _ _ _ _ E)). reflexivity.
  - exfalso. unfold process_folder in E.
    destruct (folder_loop _ _ _ _ _ _ _) as [[any log0] w0]. discriminate.
Defined.

Lemma folder_loop_frame lib flts (folder_path : string) (names : list string)
    (any : bool) (log : list folder_message) w (p : string) :
  (forall n, n ∈ names -> is_mp3_name n = true ->
     p <> path_join folder_path n /\
     p <> (path_join folder_path n ++ ".cue")%string /\
     p <> (path_join folder_path n ++ ".bak")%string) ->
  files (snd (folder_loop lib flts folder_path names any log w)) !! p = files w !! p.
Proof.
  revert any log w. induction names as [|n names IH]; intros any log w Hp; [done|].
  assert (Hrest : forall n', n' ∈ names -> is_mp3_name n' = true ->
            p <> path_join folder_path n' /\
            p <> (path_join folder_path n' ++ ".cue")%string /\
            p <> (path_join folder_path n' ++ ".bak")%string).
  { intros n' Hin. apply Hp. by right. }
  cbn [folder_loop]. fold (is_mp3_name n).
  destruct (is_mp3_name n) eqn:En; [|by apply IH].
  destruct (Hp n) as (Hmp3 & Hcue & Hbak); [by left|done|].
  destruct (exists_ _ w); [|by apply IH].
  destruct (process_files _ _ _ _ w) as [ok w1] eqn:Hrun.
  rewrite IH by done.
  change w1 with (snd (ok, w1)). rewrite <- Hrun.
  by apply process_files_frame_core.
Qed.

(** X14.  [process_folder] touches nothing but the MP3 files named in
    the listing, their CUE files and their backup paths: a path that is
    none of these holds after the run what it held before. *)
Theorem process_folder_frame lib flts (folder_path : string)
    (names : list string) w (p : string) :
  (forall n, n ∈ names -> is_mp3_name n = true ->
     p <> path_join folder_path n /\
     p <> (path_join folder_path n ++ ".cue")%string /\
     p <> (path_join folder_path n ++ ".bak")%string) ->
  files (snd (process_folder lib flts (Ok names) folder_path w)) !! p = files w !! p.
Proof.
  intros Hp. unfold process_folder.
  pose proof (folder_loop_frame lib flts folder_path names false [] w p Hp) as H.
  by destruct (folder_loop _ _ _ _ _ _ _) as [[any log] w'].
Qed.

Lemma process_folder_frame_witness :
  files (snd (process_folder sample_lib all_fail (Ok sample_names) "music" sample_folder))
    !! "music/notes.txt" = Some "text".
Proof.
  rewrite (process_folder_frame sample_lib all_fail "music" sample_names sample_folder
             "music/notes.txt"); [reflexivity|].
  intros n Hin Hmp3. unfold sample_names in Hin.
  repeat (apply elem_of_cons in Hin as [->|Hin]);
    try (vm_compute in Hmp3; discriminate Hmp3);
    try (repeat split; vm_compute; discriminate).
  by apply elem_of_nil in Hin.
Defined.

End Folder.

(** ** More on the parser *)

Section ParserMore.

Lemma seeds_of_complete_blocks (blocks : list block) :
  forallb is_block blocks = true ->
  Forall2 (fun b sd => block_seed (snd b) = Some sd)
          (List.filter complete_block blocks)
          (omap (fun b => block_seed (snd b)) blocks).
Proof.
  induction blocks as [|b blocks IH]; intros H; [constructor|].
  apply andb_prop in H as [Hb Hbs]. cbn [List.filter].
  destruct (complete_block b) eqn:Ec.
  - destruct (complete_block_seed b Ec) as [sd Hsd].
    assert (omap (fun b => block_seed (snd b)) (b :: blocks)
            = sd :: omap (fun b => block_seed (snd b)) blocks) as ->
      by (cbn; by rewrite Hsd).
    constructor; [done|by apply IH].
  - assert (omap (fun b => block_seed (snd b)) (b :: blocks)
            = omap (fun b => block_seed (snd b)) blocks) as ->
      by (cbn; by rewrite (incomplete_block_seed b Hb Ec)).
    by apply IH.
Qed.

(** X16.  On every text the parser returns, after the seed of the lines
    before the first TRACK line if these have both a title and a time,
    one seed for each TRACK block that has a quoted TITLE line and a
    well-formed INDEX 01 line, in the order of the blocks; a block that
    lacks one of the two is dropped without a trace in the result. *)
Theorem parser_drops_incomplete_blocks (lines : list string) :
  exists seeds errs,
    parse_cue_lines lines
      = Ok ((option_list (block_seed (leading lines)) ++ seeds)%list, errs) /\
    Forall2 (fun b sd => block_seed (snd b) = Some sd)
            (List.filter complete_block (blocks_of lines)) seeds.
Proof.
  destruct (parse_cue_lines_blocks lines) as [errs H].
  eexists _, errs. split; [exact H|].
  apply seeds_of_complete_blocks, split_blocks_shape.
Qed.

Lemma fold_pick_last {A B} (f : B -> option A) (l1 l2 : list B) (x : B) (y : A)
    (old : option A) :
  f x = Some y ->
  forallb (fun x => bool_decide (f x = None)) l2 = true ->
  foldl (fun acc x => pick acc (f x)) old (l1 ++ x :: l2) = Some y.
Proof.
  intros Hx Hl2. rewrite foldl_app. simpl. rewrite Hx. simpl.
  by apply fold_pick_none.
Qed.

(** X17.  Within a TRACK block the last quoted TITLE line and the last
    well-formed INDEX 01 line win: the seed of the block has the title
    and the time of these, whatever came before. *)
Theorem last_assignment_wins (hd : string) (b1 b2 c1 c2 : list string)
    (title_raw index_raw title : string) (time : Z) :
  track_line hd = true ->
  no_track (b1 ++ title_raw :: b2) = true ->
  (b1 ++ title_raw :: b2 = c1 ++ index_raw :: c2)%list ->
  line_title title_raw = Some title ->
  forallb (fun raw => bool_decide (line_title raw = None)) b2 = true ->
  line_time index_raw = Some time ->
  forallb (fun raw => bool_decide (line_time raw = None)) c2 = true ->
  exists errs,
    parse_cue_lines (hd :: b1 ++ title_raw :: b2) = Ok ([(title, time)], errs).
Proof.
  intros Hhd Hbody Heq Htitle Hb2 Htime Hc2.
  destruct (parse_blocks [] [(hd, (b1 ++ title_raw :: b2)%list)] eq_refl) as [errs H].
  { simpl. unfold is_block. simpl. by rewrite Hhd, Hbody. }
  exists errs. unfold text_of in H. simpl in H. rewrite app_nil_r in H.
  rewrite H. do 2 f_equal.
  unfold block_seed, body_title, body_time.
  rewrite (fold_pick_last line_title b1 b2 title_raw title None Htitle Hb2).
  rewrite Heq.
  by rewrite (fold_pick_last line_time c1 c2 index_raw time None Htime Hc2).
Qed.

Lemma last_assignment_wins_witness :
  exists errs, parse_cue_lines twice_block = Ok ([("Final", 2000)], errs).
Proof.
  apply (last_assignment_wins (TRACK_line "01")
           [TITLE_line "Draft"; INDEX_line "00:01:00"]
           [INDEX_line "00:02:00"; "    TITLE unquoted"; INDEX_line "xx"]
           [TITLE_line "Draft"; INDEX_line "00:01:00"; TITLE_line "Final"]
           ["    TITLE unquoted"; INDEX_line "xx"]
           (TITLE_line "Final") (INDEX_line "00:02:00") "Final" 2000);
    vm_compute; reflexivity.
Defined.

Lemma rstrip_ends_nonspace (s : string) (c : ascii) :
  is_space c = false -> rstrip (s ++ String c "") = (s ++ String c "")%string.
Proof.
  intros Hc. induction s as [|a s IH]; simpl.
  - by rewrite Hc.
  - rewrite IH. by destruct s.
Qed.

Lemma split_on_until (sep : ascii) (t rest : string) :
  has_char sep t = false ->
  split_on sep (t ++ String sep rest) = t :: split_on sep rest.
Proof.
  induction t as [|a t IH]; simpl.
  - intros _. by rewrite Ascii.eqb_refl.
  - rewrite Ascii.eqb_sym. intros [Ha Ht]%orb_false_elim.
    by rewrite Ha, IH.
Qed.

(** X18.  A TITLE line gives back the title written between its quotes:
    for every title without a double quote, whatever else it contains
    (blanks at its ends, the words TRACK or INDEX 01), the line
    [TITLE "title"] sets the title to exactly that text and leaves the
    time and the seeds alone. *)
Theorem title_round_trip (st : pstate) (title : string) :
  has_char dquote title = false ->
  loop_body st (TITLE_line title)
  = Ok (PState (chapters st) (Some title) (current_time st) (time_errors st)).
Proof.
  intros Hq.
  assert (Hstrip : strip (TITLE_line title) = ("TITLE " ++ quoted title)%string).
  { unfold strip.
    change (lstrip (TITLE_line title))
      with (("TITLE " ++ String dquote title) ++ String dquote "")%string.
    by rewrite rstrip_ends_nonspace. }
  assert (Hsplit : split_on dquote ("TITLE " ++ quoted title)%string
                   = ["TITLE "; title; ""]).
  { unfold quoted.
    change ("TITLE " ++ String dquote title ++ String dquote "")%string
      with ("TITLE " ++ String dquote (title ++ String dquote ""))%string.
    rewrite (split_on_until dquote "TITLE " _ eq_refl).
    by rewrite (split_on_until dquote title "" Hq). }
  unfold loop_body. rewrite Hstrip.
  change (is_track ("TITLE " ++ quoted title)) with false.
  change (is_title ("TITLE " ++ quoted title)) with true.
  cbv iota.
  assert (has_char dquote ("TITLE " ++ quoted title) = true) as -> by reflexivity.
  by rewrite Hsplit.
Qed.

Lemma title_round_trip_witness :
  loop_body initial (TITLE_line " INDEX 01 of the TRACK ")
  = Ok (PState [] (Some " INDEX 01 of the TRACK ") None []).
Proof.
  apply (title_round_trip initial " INDEX 01 of the TRACK "). reflexivity.
Defined.

Lemma lstrip_blank (s : string) : blank s = true -> lstrip s = "".
Proof.
  unfold blank. induction s as [|c s IH]; simpl; [done|].
  intros [Hc Hs]%andb_prop. rewrite Hc. by apply IH.
Qed.

Lemma rstrip_blank (s : string) : blank s = true -> rstrip s = "".
Proof.
  unfold blank. induction s as [|c s IH]; simpl; [done|].
  intros [Hc Hs]%andb_prop. by rewrite (IH Hs), Hc.
Qed.

Lemma lstrip_blank_app (ws s : string) :
  blank ws = true -> lstrip (ws ++ s) = lstrip s.
Proof.
  unfold blank. induction ws as [|c ws IH]; simpl; [done|].
  intros [Hc Hs]%andb_prop. rewrite Hc. by apply IH.
Qed.

Lemma rstrip_app_blank (s ws : string) :
  blank ws = true -> rstrip (s ++ ws) = rstrip s.
Proof.
  intros Hws. induction s as [|c s IH]; simpl.
  - by apply rstrip_blank.
  - by rewrite IH.
Qed.

Lemma strip_app_blank (s ws : string) :
  blank ws = true -> strip (s ++ ws) = strip s.
Proof.
  intros Hws. unfold strip. induction s as [|c s IH].
  - change ("" ++ ws)%string with ws. by rewrite (lstrip_blank ws Hws).
  - change (String c s ++ ws)%string with (String c (s ++ ws)).
    cbn [lstrip]. destruct (is_space c); [done|].
    change (String c (s ++ ws)) with (String c s ++ ws)%string.
    by apply rstrip_app_blank.
Qed.

Lemma strip_padded (raw raw' : string) : padded raw raw' -> strip raw' = strip raw.
Proof.
  intros (before & after & Hb & Ha & ->).
  unfold strip at 1. rewrite (lstrip_blank_app before _ Hb).
  by apply strip_app_blank.
Qed.

Lemma loop_strip (st : pstate) (l1 l2 : list string) :
  Forall2 (fun a b => strip a = strip b) l1 l2 -> loop st l1 = loop st l2.
Proof.
  intros H. revert st. induction H as [|a b l1 l2 Hab _ IH]; intros st; [done|].
  simpl. unfold loop_body. rewrite Hab.
  destruct (if is_track (strip b) then _ else _); simpl; [apply IH|done].
Qed.

(** X19.  Blanks around a line never matter: a text whose lines differ
    from those of another only by whitespace added at the start or the
    end of lines (indentation, trailing blanks, line terminators) parses
    to the same seeds and the same reported errors. *)
Theorem padding_irrelevant (lines lines' : list string) :
  Forall2 padded lines lines' ->
  parse_cue_lines lines' = parse_cue_lines lines.
Proof.
  intros H. unfold parse_cue_lines.
  rewrite (loop_strip initial lines' lines); [done|].
  induction H as [|a b l1 l2 Hab _ IH]; constructor; [|done].
  by apply strip_padded.
Qed.

Lemma padding_irrelevant_witness :
  parse_cue_lines two_tracks_padded = parse_cue_lines two_tracks.
Proof.
  apply padding_irrelevant. unfold two_tracks_padded, two_tracks. cbn [map].
  repeat (constructor; [eexists (String (ascii_of_nat 9) ""),
                                (" " ++ String CR (String LF ""))%string;
                        split; [reflexivity|split; reflexivity]|]).
  constructor.
Defined.

End ParserMore.

(** ** More on identifiers, chapter bounds and timecodes *)

Section Numbers.

#[local] Instance element_id_Inj : Inj (=) (=) element_id.
Proof. intros i j. apply element_id_inj. Qed.

(** X20.  However many chapters there are, no two of them get the same
    element identifier or the same key in the container: beyond 99 the
    numeral grows instead of being cut to two digits. *)
Theorem element_ids_distinct (chapters : list seed) (total_duration_ms : Z) :
  NoDup (child_ids chapters) /\
  NoDup (HashKey <$> chapter_frames chapters total_duration_ms) /\
  element_id 99 = "chp100".
Proof.
  split; [|split; [apply chapter_frames_NoDup|reflexivity]].
  unfold child_ids. rewrite imap_seq_0.
  apply NoDup_fmap_2; [apply _|apply NoDup_seq].
Qed.

(** X21.  When the seeds are in ascending order of start and the total
    duration is not below the last start, no chapter frame ends before
    it starts.  The function does not check this: for a file shorter
    than the last start it builds a last chapter that ends before it
    starts. *)
Theorem chapter_bounds (chapters : list seed) (total_duration_ms : Z)
    (tags0 tags : ID3) :
  new_tags chapters total_duration_ms tags0 = Ok tags ->
  (ascending chapters ->
   (forall sd, last chapters = Some sd -> snd sd <= total_duration_ms) ->
   forall i sd, chapters !! i = Some sd ->
     exists fr s e,
       tags !! chap_key i = Some fr /\ frame_start fr = Some s /\
       frame_end fr = Some e /\ s <= e) /\
  (forall sd, last chapters = Some sd -> total_duration_ms < snd sd ->
     exists fr s e,
       tags !! chap_key (length chapters - 1) = Some fr /\
       frame_start fr = Some s /\ frame_end fr = Some e /\ e < s).
Proof.
  intros Hnew.
  destruct (new_tags_lookup chapters total_duration_ms tags0)
    as (tags' & Hnew' & Hchap & _).
  rewrite Hnew in Hnew'. injection Hnew' as <-.
  split.
  - intros Hasc Hlast i sd Hi.
    exists (chapter_frame chapters total_duration_ms i sd), (snd sd),
           (end_time_of chapters total_duration_ms i).
    split; [by apply Hchap|]. split; [done|]. split; [done|].
    unfold end_time_of. replace (i + 1)%nat with (S i) by lia.
    destruct (chapters !! S i) as [[t' s']|] eqn:En.
    + apply (Hasc i sd (t', s') Hi En).
    + apply Hlast. rewrite last_lookup.
      apply lookup_ge_None_1 in En. apply lookup_lt_Some in Hi as Hlt.
      by replace (pred (length chapters)) with i by lia.
  - intros sd Hsd Hshort. rewrite last_lookup in Hsd.
    replace (pred (length chapters)) with (length chapters - 1)%nat in Hsd by lia.
    exists (chapter_frame chapters total_duration_ms (length chapters - 1) sd),
           (snd sd), total_duration_ms.
    split; [by apply Hchap|]. split; [done|]. split; [|done].
    unfold chapter_frame, frame_end, end_time_of.
    apply lookup_lt_Some in Hsd as Hlt.
    by rewrite (lookup_ge_None_2 chapters (length chapters - 1 + 1)) by lia.
Qed.

Lemma chapter_bounds_witness :
  exists tags fr s e,
    new_tags three_chapters 70000 ∅ = Ok tags /\
    tags !! chap_key 2 = Some fr /\
    frame_start fr = Some s /\ frame_end fr = Some e /\ e < s.
Proof.
  destruct (new_tags_lookup three_chapters 70000 ∅) as (tags & Hnew & _).
  destruct (proj2 (chapter_bounds three_chapters 70000 ∅ tags Hnew) ("c", 90000))
    as (fr & s & e & H); [reflexivity|reflexivity|].
  by exists tags, fr, s, e.
Defined.

Lemma timecode_ms_whole (m s f : Z) : timecode_ms m s f = timecode_ms 0 (m * 60 + s) f.
Proof. unfold timecode_ms. by rewrite Z.mul_0_l, Z.add_0_l. Qed.

Lemma timecodes_below_all (n : nat) (s f : Z) :
  0 <= s < Z.of_nat n -> 0 <= f < 75 -> (s, f) ∈ timecodes_below n.
Proof.
  intros Hs Hf. unfold timecodes_below.
  apply list_elem_of_bind. exists s. split; [|apply elem_of_seqZ; lia].
  apply list_elem_of_bind. exists f. split; [|apply elem_of_seqZ; lia].
  by apply list_elem_of_singleton.
Qed.

(** X22.  For every timecode below two minutes with frames below 75 the
    conversion does not raise and gives the exact number of
    milliseconds rounded down, or one millisecond less, never more; the
    lower value does occur, 00:01:27 is converted to 1359 although it is
    exactly 1360 ms. *)
Theorem timecode_ms_near_exact (m s f : Z) :
  0 <= m * 60 + s < 120 -> 0 <= f < 75 ->
  (exists t,
     timecode_ms m s f = Ok t /\
     exact_floor_ms m s f - 1 <= t <= exact_floor_ms m s f) /\
  timecode_ms 0 1 27 = Ok 1359 /\ exact_floor_ms 0 1 27 = 1360.
Proof.
  intros Hs Hf. split; [|split; vm_compute; reflexivity].
  assert (Hall : forallb near_exact (timecodes_below 120) = true)
    by (vm_compute; reflexivity).
  rewrite forallb_forall in Hall.
  specialize (Hall (m * 60 + s, f)
                (proj1 (list_elem_of_In _ _) (timecodes_below_all 120 _ _ Hs Hf))).
  unfold near_exact in Hall. simpl fst in Hall. simpl snd in Hall.
  rewrite timecode_ms_whole.
  replace (exact_floor_ms m s f) with (exact_floor_ms 0 (m * 60 + s) f)
    by (unfold exact_floor_ms; f_equal; lia).
  destruct (timecode_ms 0 (m * 60 + s) f) as [t|]; [|discriminate].
  apply andb_prop in Hall as [H1 H2]. exists t. split; [done|]. lia.
Qed.

Lemma timecode_ms_near_exact_witness :
  exists t, timecode_ms 1 30 74 = Ok t /\ 90985 <= t <= 90986.
Proof.
  destruct (proj1 (timecode_ms_near_exact 1 30 74 ltac:(lia) ltac:(lia)))
    as (t & Ht & Hb).
  exists t. split; [exact Ht|]. exact Hb.
Defined.

End Numbers.

(** ** Timecodes as text *)

Section TimecodeText.

Local Open Scope nat_scope.

Lemma int_digits_uint (d : Decimal.uint) (n count : nat) (sep : bool) :
  int_digits (Z.of_nat n) count sep (NilEmpty.string_of_uint d)
  = match d with
    | Decimal.Nil => if sep then None else Some (Z.of_nat n, count)
    | _ => Some (Z.of_nat (Nat.of_uint_acc d n), count + Decimal.nb_digits d)
    end.
Proof.
  revert n count sep.
  induction d as [|d IH|d IH|d IH|d IH|d IH|d IH|d IH|d IH|d IH|d IH];
    intros n count sep; [done|..].
  all: cbn [NilEmpty.string_of_uint int_digits Nat.of_uint_acc Decimal.nb_digits].
  all: match goal with
       | |- context [Ascii.eqb ?c "_"] => change (Ascii.eqb c "_") with false
       end; cbv iota.
  all: match goal with
       | |- context [digit_of ?c] =>
           let v := eval vm_compute in (digit_of c) in change (digit_of c) with v
       end; cbv iota.
  all: match goal with
       | |- int_digits ?a _ _ _ = Some (Z.of_nat (Nat.of_uint_acc _ ?m), _) =>
           replace a with (Z.of_nat m) by (rewrite ?Nat.tail_mul_spec; lia)
       end.
  all: rewrite IH; destruct d; cbn [Nat.of_uint_acc Decimal.nb_digits];
    f_equal; f_equal; lia.
Qed.

Lemma all_chars_impl (p q : ascii -> bool) (s : string) :
  (forall c, p c = true -> q c = true) -> all_chars p s = true -> all_chars q s = true.
Proof.
  intros Hpq. induction s as [|c s IH]; simpl; [done|].
  intros [Hc Hs]%andb_prop. by rewrite (Hpq c Hc), IH.
Qed.

Lemma is_digit_cases (c : ascii) :
  is_digit c = true -> is_space c = false /\ Ascii.eqb c ":" = false
                       /\ c <> "+"%char /\ c <> "-"%char.
Proof.
  destruct c as [[] [] [] [] [] [] [] []]; vm_compute; intros H;
    try discriminate H; repeat split; discriminate.
Qed.

Lemma numeral_of_uint (d : Decimal.uint) : numeral (NilEmpty.string_of_uint d) = true.
Proof. unfold numeral. induction d; simpl; [done|by rewrite IHd..]. Qed.

Lemma length_of_uint (d : Decimal.uint) :
  String.length (NilEmpty.string_of_uint d) = Decimal.nb_digits d.
Proof. induction d; simpl; [done|by rewrite IHd..]. Qed.

Lemma numeral_solid (s : string) : numeral s = true -> solid s = true.
Proof.
  apply all_chars_impl. intros c Hc.
  destruct (is_digit_cases c Hc) as [-> _]. done.
Qed.

Lemma numeral_no_colon (s : string) : numeral s = true -> has_char ":" s = false.
Proof.
  unfold numeral. induction s as [|c s IH]; [done|].
  cbn [all_chars has_char]. intros [Hc Hs]%andb_prop.
  rewrite (IH Hs), Ascii.eqb_sym.
  destruct (is_digit_cases c Hc) as (_ & -> & _). done.
Qed.

Lemma lstrip_solid (s : string) : solid s = true -> lstrip s = s.
Proof.
  destruct s as [|c s]; simpl; [done|].
  intros [Hc _]%andb_prop. apply negb_true_iff in Hc. by rewrite Hc.
Qed.

Lemma rstrip_app_solid (p s : string) :
  solid s = true -> s <> "" -> rstrip (p ++ s) = (p ++ s)%string.
Proof.
  intros Hs Hne.
  assert (Hbase : rstrip s = s).
  { clear Hne. induction s as [|c s IH]; simpl; [done|].
    simpl in Hs. apply andb_prop in Hs as [Hc Hs]. apply negb_true_iff in Hc.
    rewrite (IH Hs), Hc. by destruct s. }
  induction p as [|a p IH]; simpl; [done|].
  rewrite IH. destruct p; [by destruct s|done].
Qed.

Lemma strip_solid (s : string) : solid s = true -> strip s = s.
Proof.
  intros Hs. unfold strip. rewrite (lstrip_solid s Hs).
  destruct s as [|c s]; [done|]. by apply (rstrip_app_solid "").
Qed.

Lemma is_int_space_space (c : ascii) : is_int_space c = true -> is_space c = true.
Proof. by destruct c as [[] [] [] [] [] [] [] []]. Qed.

Lemma int_strip_solid (s : string) : solid s = true -> int_rstrip (int_lstrip s) = s.
Proof.
  intros Hs.
  assert (Hl : int_lstrip s = s).
  { destruct s as [|c s]; simpl; [done|].
    simpl in Hs. apply andb_prop in Hs as [Hc _]. apply negb_true_iff in Hc.
    destruct (is_int_space c) eqn:E; [|done].
    apply is_int_space_space in E. congruence. }
  rewrite Hl. induction s as [|c s IH]; simpl; [done|].
  simpl in Hs. apply andb_prop in Hs as [Hc Hs]. apply negb_true_iff in Hc.
  rewrite (IH Hs).
  - destruct s; [|done].
    destruct (is_int_space c) eqn:E; [|done].
    apply is_int_space_space in E. congruence.
  - destruct s as [|c' s]; simpl; [done|].
    simpl in Hs. apply andb_prop in Hs as [Hc' _]. apply negb_true_iff in Hc'.
    destruct (is_int_space c') eqn:E; [|done].
    apply is_int_space_space in E. congruence.
Qed.

Lemma pad2_uint (n : nat) :
  exists d, pad2 n = NilEmpty.string_of_uint d /\ d <> Decimal.Nil /\ Nat.of_uint d = n.
Proof.
  unfold pad2. destruct (String.length _ <? 2).
  - exists (Decimal.D0 (Nat.to_uint n)). split; [done|]. split; [done|].
    change (Nat.of_uint (Decimal.D0 (Nat.to_uint n))) with (Nat.of_uint (Nat.to_uint n)).
    apply Unsigned.of_to.
  - exists (Nat.to_uint n). split; [done|]. split; [|apply Unsigned.of_to].
    intros H. assert (Hn : n = 0) by (by rewrite <- (Unsigned.of_to n), H).
    rewrite Hn in H. discriminate H.
Qed.

Lemma int_of_uint (d : Decimal.uint) :
  d <> Decimal.Nil -> Decimal.nb_digits d <= int_max_str_digits ->
  int (NilEmpty.string_of_uint d) = Ok (Z.of_nat (Nat.of_uint d)).
Proof.
  intros Hd Hlen. unfold int.
  rewrite (int_strip_solid _ (numeral_solid _ (numeral_of_uint d))).
  assert (Hsign : match NilEmpty.string_of_uint d with
                  | String "+" r => (false, r)
                  | String "-" r => (true, r)
                  | _ => (false, NilEmpty.string_of_uint d)
                  end = (false, NilEmpty.string_of_uint d))
    by (by destruct d).
  rewrite Hsign.
  pose proof (int_digits_uint d 0 0 true) as Hdigits.
  change (Z.of_nat 0) with 0%Z in Hdigits. rewrite Hdigits.
  destruct d; [done|..]; cbv iota beta;
    rewrite Nat.add_0_l, (proj2 (Nat.leb_le _ _) Hlen); reflexivity.
Qed.

Lemma int_pad2 (n : nat) :
  String.length (pad2 n) <= int_max_str_digits -> int (pad2 n) = Ok (Z.of_nat n).
Proof.
  destruct (pad2_uint n) as (d & -> & Hd & <-).
  rewrite length_of_uint. by apply int_of_uint.
Qed.

Lemma pad2_numeral (n : nat) : numeral (pad2 n) = true /\ pad2 n <> "".
Proof.
  destruct (pad2_uint n) as (d & -> & Hd & _). split; [apply numeral_of_uint|].
  by destruct d.
Qed.

Lemma all_chars_app (p : ascii -> bool) (a b : string) :
  all_chars p (a ++ b) = all_chars p a && all_chars p b.
Proof. induction a as [|c a IH]; simpl; [done|]. by rewrite IH, andb_assoc. Qed.

Lemma split_on_none (sep : ascii) (s : string) :
  has_char sep s = false -> split_on sep s = [s].
Proof.
  induction s as [|c s IH]; [done|]. cbn [has_char split_on].
  rewrite Ascii.eqb_sym. intros [Hc Hs]%orb_false_elim. by rewrite Hc, IH.
Qed.

Lemma split_ws_solid (w : string) : solid w = true -> w <> "" -> split_ws w = [w].
Proof.
  induction w as [|a w IH]; [done|]. intros Hs _.
  cbn [solid all_chars] in Hs. apply andb_prop in Hs as [Ha Hw].
  apply negb_true_iff in Ha. cbn [split_ws]. rewrite Ha.
  destruct w as [|b w]; [done|].
  assert (Hb : is_space b = false).
  { cbn [all_chars] in Hw. apply andb_prop in Hw as [Hb _]. by apply negb_true_iff. }
  rewrite Hb. by rewrite IH.
Qed.

Lemma split_ws_word (w rest : string) (c : ascii) :
  solid w = true -> w <> "" -> is_space c = true ->
  split_ws (w ++ String c rest) = w :: split_ws rest.
Proof.
  intros Hs Hne Hc. induction w as [|a w IH]; [done|].
  cbn [solid all_chars] in Hs. apply andb_prop in Hs as [Ha Hw].
  apply negb_true_iff in Ha.
  change (String a w ++ String c rest)%string with (String a (w ++ String c rest)).
  cbn [split_ws]. rewrite Ha.
  destruct w as [|b w].
  - change ("" ++ String c rest)%string with (String c rest). cbv beta iota.
    rewrite Hc. cbn [split_ws]. by rewrite Hc.
  - assert (Hb : is_space b = false).
    { cbn [all_chars] in Hw. apply andb_prop in Hw as [Hb _]. by apply negb_true_iff. }
    change (String b w ++ String c rest)%string with (String b (w ++ String c rest)).
    cbv beta iota. rewrite Hb.
    change (String b (w ++ String c rest)) with (String b w ++ String c rest)%string.
    by rewrite IH.
Qed.

Lemma timecode_text_solid (m s f : nat) :
  solid (timecode_text m s f) = true /\ timecode_text m s f <> "".
Proof.
  unfold timecode_text, solid. split.
  - rewrite !all_chars_app.
    destruct (pad2_numeral m) as [Hm _], (pad2_numeral s) as [Hs _],
             (pad2_numeral f) as [Hf _].
    apply numeral_solid in Hm, Hs, Hf. unfold solid in *. by rewrite Hm, Hs, Hf.
  - destruct (pad2_numeral m) as [_ Hm]. by destruct (pad2 m).
Qed.

Lemma timecode_text_fields (m s f : nat) :
  split_on ":" (timecode_text m s f) = [pad2 m; pad2 s; pad2 f].
Proof.
  unfold timecode_text.
  destruct (pad2_numeral m) as [Hm _], (pad2_numeral s) as [Hs _],
           (pad2_numeral f) as [Hf _].
  change (pad2 m ++ ":" ++ pad2 s ++ ":" ++ pad2 f)%string
    with (pad2 m ++ String ":" (pad2 s ++ String ":" (pad2 f)))%string.
  rewrite (split_on_until ":" _ _ (numeral_no_colon _ Hm)).
  rewrite (split_on_until ":" _ _ (numeral_no_colon _ Hs)).
  by rewrite (split_on_none ":" _ (numeral_no_colon _ Hf)).
Qed.

(** X23.  An INDEX 01 line is read back field by field: for all numbers
    of minutes, seconds and frames written as [mm:ss:ff], zero-padded to
    two digits (and within the digit limit of [int]), the line
    [INDEX 01 mm:ss:ff] converts exactly these three numbers, and sets
    the time to the result when the conversion does not raise. *)
Theorem index_line_round_trip (st : pstate) (m s f : nat) :
  String.length (pad2 m) <= int_max_str_digits ->
  String.length (pad2 s) <= int_max_str_digits ->
  String.length (pad2 f) <= int_max_str_digits ->
  index_time (strip (INDEX_line (timecode_text m s f)))
  = timecode_ms (Z.of_nat m) (Z.of_nat s) (Z.of_nat f) /\
  (forall t, timecode_ms (Z.of_nat m) (Z.of_nat s) (Z.of_nat f) = Ok t ->
     loop_body st (INDEX_line (timecode_text m s f))
     = Ok (PState (chapters st) (current_title st) (Some t) (time_errors st))).
Proof.
  intros Hm Hs Hf.
  destruct (timecode_text_solid m s f) as [Hsolid Hne].
  assert (Hstrip : strip (INDEX_line (timecode_text m s f))
                   = ("INDEX 01 " ++ timecode_text m s f)%string).
  { unfold strip.
    change (lstrip (INDEX_line (timecode_text m s f)))
      with ("INDEX 01 " ++ timecode_text m s f)%string.
    by apply rstrip_app_solid. }
  assert (Htime : index_time ("INDEX 01 " ++ timecode_text m s f)
                  = timecode_ms (Z.of_nat m) (Z.of_nat s) (Z.of_nat f)).
  { unfold index_time.
    change ("INDEX 01 " ++ timecode_text m s f)%string
      with ("INDEX" ++ String " " ("01" ++ String " " (timecode_text m s f)))%string.
    rewrite (split_ws_word "INDEX" _ " " eq_refl) by done.
    rewrite (split_ws_word "01" _ " " eq_refl) by done.
    rewrite (split_ws_solid _ Hsolid Hne).
    change (last_item ["INDEX"; "01"; timecode_text m s f])
      with (Ok (timecode_text m s f) : result string).
    cbn [mbind result_bind]. rewrite timecode_text_fields.
    by rewrite (int_pad2 m Hm), (int_pad2 s Hs), (int_pad2 f Hf). }
  rewrite Hstrip. split; [exact Htime|].
  intros t Ht. unfold loop_body. rewrite Hstrip, Htime, Ht.
  reflexivity.
Qed.

Lemma index_line_round_trip_witness :
  loop_body initial (INDEX_line "07:05:64") = Ok (PState [] None (Some 425853%Z) []).
Proof.
  apply (proj2 (index_line_round_trip initial 7 5 64
                  ltac:(vm_compute; lia) ltac:(vm_compute; lia) ltac:(vm_compute; lia))).
  vm_compute. reflexivity.
Defined.

End TimecodeText.

(** ** Line terminators *)

Section LineEnds.

Lemma readlines_LF (line rest : string) :
  one_line line = true ->
  readlines (line ++ String LF rest) = (line ++ String LF "")%string :: readlines rest.
Proof.
  unfold one_line. induction line as [|c line IH]; [done|].
  cbn [all_chars]. intros [[Hlf Hcr]%andb_prop Hline]%andb_prop.
  apply negb_true_iff in Hlf, Hcr.
  change (String c line ++ String LF rest)%string
    with (String c (line ++ String LF rest)).
  cbn [readlines]. rewrite Hlf, Hcr, (IH Hline). by destruct line.
Qed.

Lemma readlines_CRLF (line rest : string) :
  one_line line = true ->
  readlines (line ++ String CR (String LF rest))
  = (line ++ String LF "")%string :: readlines rest.
Proof.
  unfold one_line. induction line as [|c line IH]; [done|].
  cbn [all_chars]. intros [[Hlf Hcr]%andb_prop Hline]%andb_prop.
  apply negb_true_iff in Hlf, Hcr.
  change (String c line ++ String CR (String LF rest))%string
    with (String c (line ++ String CR (String LF rest))).
  cbn [readlines]. rewrite Hlf, Hcr, (IH Hline). by destruct line.
Qed.

Lemma readlines_CR (line rest : string) :
  one_line line = true -> startswith (String LF "") rest = false ->
  readlines (line ++ String CR rest) = (line ++ String LF "")%string :: readlines rest.
Proof.
  unfold one_line. intros Hline Hrest. induction line as [|c line IH].
  - change ("" ++ String CR rest)%string with (String CR rest).
    cbn [readlines]. change (Ascii.eqb CR LF) with false.
    change (Ascii.eqb CR CR) with true. cbv iota.
    destruct rest as [|c' rest']; [done|].
    unfold startswith in Hrest. cbn [String.prefix] in Hrest.
    destruct (Ascii.eqb c' LF) eqn:E; [|done].
    apply Ascii.eqb_eq in E. subst c'. by destruct rest'.
  - cbn [all_chars] in Hline. apply andb_prop in Hline as [[Hlf Hcr]%andb_prop Hline].
    apply negb_true_iff in Hlf, Hcr.
    change (String c line ++ String CR rest)%string
      with (String c (line ++ String CR rest)).
    cbn [readlines]. rewrite Hlf, Hcr, (IH Hline). by destruct line.
Qed.

Lemma unlines_starts (lines : list string) :
  forallb one_line lines = true ->
  startswith (String LF "") (unlines (String CR "") lines) = false.
Proof.
  destruct lines as [|[|c line] rest]; [done|done|].
  cbn [forallb one_line all_chars]. unfold startswith.
  intros [[[Hlf _]%andb_prop _]%andb_prop _]%andb_prop.
  apply negb_true_iff in Hlf. cbn [unlines].
  change (String c line ++ String CR "" ++ unlines (String CR "") rest)%string
    with (String c (line ++ String CR "" ++ unlines (String CR "") rest)).
  cbn [String.prefix]. destruct (ascii_dec LF c) as [<-|];
    [|done].
  by rewrite Ascii.eqb_refl in Hlf.
Qed.

Lemma readlines_unlines (terminator : string) (lines : list string) :
  is_terminator terminator -> forallb one_line lines = true ->
  readlines (unlines terminator lines)
  = map (fun line => (line ++ String LF "")%string) lines.
Proof.
  intros Hterm. induction lines as [|line rest IH]; [done|].
  cbn [forallb unlines map]. intros [Hline Hrest]%andb_prop.
  rewrite <- (IH Hrest). destruct Hterm as [-> | [-> | ->]].
  - by apply readlines_LF.
  - by apply readlines_CRLF.
  - apply readlines_CR; [done|by apply unlines_starts].
Qed.

Lemma all_chars_unlines (p : ascii -> bool) (terminator : string)
    (lines : list string) :
  all_chars p terminator = true ->
  all_chars p (unlines terminator lines) = forallb (all_chars p) lines.
Proof.
  intros Hterm. induction lines as [|line rest IH]; [done|].
  cbn [unlines forallb]. by rewrite !all_chars_app, Hterm, IH.
Qed.

(** X24.  The line terminator of the CUE file does not matter: written
    with LF, with CR LF or with CR after each line, a file parses to what
    its lines parse to (or fails to decode, if a line holds a byte
    cp1252 does not define). *)
Theorem line_ends_irrelevant (terminator : string) (lines : list string) :
  is_terminator terminator ->
  forallb one_line lines = true ->
  parse_cue_text (unlines terminator lines)
  = if forallb (all_chars cp1252_defined) lines
    then parse_cue_lines lines
    else Raise UnicodeDecodeError.
Proof.
  intros Hterm Hlines. unfold parse_cue_text, decode_cp1252.
  rewrite all_chars_unlines by (by destruct Hterm as [-> | [-> | ->]]).
  destruct (forallb (all_chars cp1252_defined) lines); [|done].
  cbn [mbind result_bind]. rewrite (readlines_unlines _ _ Hterm Hlines).
  unfold parse_cue_lines.
  rewrite (loop_strip initial _ lines); [done|].
  clear Hlines. induction lines as [|line rest IH]; constructor; [|done].
  by apply (strip_app_blank line (String LF "")).
Qed.

Lemma line_ends_irrelevant_witness :
  parse_cue_text (unlines CRLF two_tracks) = Ok ([("Intro", 0); ("Main", 180000)], []).
Proof.
  rewrite (line_ends_irrelevant CRLF two_tracks); [|by right; left|reflexivity].
  vm_compute. reflexivity.
Defined.

End LineEnds.
